(** * QPL benchmark harness: start-up core

    A shallow embedding of the benchmark entry point of the QPL
    repository (namespaces [bench::details], [bench::cmd] and [main]):
    the benchmark registry, the hardware readiness check [init_hw], the
    NUMA-aware device count [get_num_devices], the lazily built system
    information [get_sys_info], the command line splicer [parse_local] and
    the accessors [get_block_size], [get_in_mem], [get_out_mem].

    C++ [std::string] values are byte strings ([string] of 8-bit [ascii]);
    fixed-width integers are [Z] with the wrap-around written out (signed
    overflow, which C++ leaves undefined, wraps as well); a
    [throw std::runtime_error(msg)] is the outcome [Throw msg].  Memory
    allocation does not fail. *)

From Stdlib Require Import ZArith List String Ascii Bool Lia.
From stdpp Require Import base list.

Local Open Scope Z_scope.

(** ** Outcomes of code that may throw *)

Inductive result (A : Type) : Type :=
| Ok (a : A)
| Throw (what : string).
Arguments Ok {A} a.
Arguments Throw {A} what.

Definition is_ok {A} (r : result A) : bool :=
  match r with Ok _ => true | Throw _ => false end.

(** ** Fixed-width integers *)

Definition wrap_uint32 (z : Z) : Z := z mod 2 ^ 32.
Definition wrap_int32 (z : Z) : Z := (z + 2 ^ 31) mod 2 ^ 32 - 2 ^ 31.
Definition wrap_uint64 (z : Z) : Z := z mod 2 ^ 64.

Definition INT_MAX : Z := 2 ^ 31 - 1.
Definition LONG_MAX : Z := 2 ^ 63 - 1.
Definition LONG_MIN : Z := - 2 ^ 63.
Definition UINT32_MAX : Z := 2 ^ 32 - 1.
Definition UINT64_MAX : Z := 2 ^ 64 - 1.

(** ** The C library functions the harness calls (C locale) *)

Module libc.

Definition code (c : ascii) : Z := Z.of_N (N_of_ascii c).
Definition chr (z : Z) : ascii := ascii_of_N (Z.to_N z).

Definition isdigit (c : ascii) : bool := (48 <=? code c) && (code c <=? 57).
Definition isupper (c : ascii) : bool := (65 <=? code c) && (code c <=? 90).
Definition islower (c : ascii) : bool := (97 <=? code c) && (code c <=? 122).
Definition isalnum (c : ascii) : bool := isdigit c || isupper c || islower c.
Definition isspace (c : ascii) : bool :=
  (code c =? 32) || ((9 <=? code c) && (code c <=? 13)).

Definition toupper (c : ascii) : ascii :=
  if islower c then chr (code c - 32) else c.
Definition tolower (c : ascii) : ascii :=
  if isupper c then chr (code c + 32) else c.

(** [std::transform(str.begin(), str.end(), str.begin(), f)] *)
Fixpoint transform (f : ascii -> ascii) (s : string) : string :=
  match s with
  | EmptyString => EmptyString
  | String c s' => String (f c) (transform f s')
  end.

(** Value of [c] as a digit in [base], when it is one. *)
Definition digit_val (base : Z) (c : ascii) : option Z :=
  let d :=
    if isdigit c then code c - 48
    else if islower c then code c - 97 + 10
    else if isupper c then code c - 65 + 10
    else 36 in
  if d <? base then Some d else None.

Definition has_digit (base : Z) (s : string) : bool :=
  match s with
  | String c _ => match digit_val base c with Some _ => true | None => false end
  | EmptyString => false
  end.

Fixpoint skip_space (s : string) : string :=
  match s with
  | String c s' => if isspace c then skip_space s' else s
  | EmptyString => s
  end.

(** The digit loop of [strtol]: the value read so far and what is left. *)
Fixpoint digits (base acc : Z) (s : string) : Z * string :=
  match s with
  | String c s' =>
      match digit_val base c with
      | Some d => digits base (acc * base + d) s'
      | None => (acc, s)
      end
  | EmptyString => (acc, s)
  end.

Definition clamp_long (z : Z) : Z :=
  if z <? LONG_MIN then LONG_MIN else if LONG_MAX <? z then LONG_MAX else z.

Definition skip_sign (s : string) : bool * string :=
  match s with
  | String "-" r => (true, r)
  | String "+" r => (false, r)
  | _ => (false, s)
  end.

Definition skip_0x (base : Z) (s : string) : string :=
  if base =? 16 then
    match s with
    | String "0" (String x r) =>
        if (Ascii.eqb x "x" || Ascii.eqb x "X") && has_digit 16 r then r else s
    | _ => s
    end
  else s.

(** [strtol(nptr, &end, base)] for [base] 10 or 16 on a 64-bit [long]:
    the value (saturated at [LONG_MIN]/[LONG_MAX]) and the text from
    [end] on.  Without any digit nothing is converted: the value is 0 and
    [end] is [nptr]. *)
Definition strtol (nptr : string) (base : Z) : Z * string :=
  let '(neg, s1) := skip_sign (skip_space nptr) in
  let s2 := skip_0x base s1 in
  if has_digit base s2 then
    let '(v, rest) := digits base 0 s2 in
    (clamp_long (if neg then - v else v), rest)
  else (0, nptr).

(** [atoi(s)] is [(int) strtol(s, NULL, 10)]. *)
Definition atoi (s : string) : Z := wrap_int32 (fst (strtol s 10)).

End libc.

Definition str_eqb (a b : string) : bool := String.eqb a b.

(** ** Memory placement ([bench::mem_loc_e]) *)

Inductive mem_loc_e : Type := cache | llc | ram | pmem | cc_ram | cc_pmem.

(** The two bytes 0xD1 0x81 (UTF-8 of U+0441) that the source has inside
    the output-placement literals, where the documented names have the
    ASCII letter [c] (0x63). *)
Definition u0441 : string := String "209" (String "129" EmptyString).

(** The literals of [get_out_mem] and the default of [FLAGS_out_mem],
    byte for byte. *)
Definition lit_cc_ram : string := String.append "c" (String.append u0441 "_ram").
Definition lit_cc_pmem : string :=
  String.append u0441 (String.append u0441 "_pmem").

Module cmd_mem.

(** [get_in_mem]: [mem] is the function's static, [None] standing for its
    initial [(mem_loc_e)-1]; the result is the outcome and the static
    afterwards. *)
Definition get_in_mem (FLAGS_in_mem : string) (mem : option mem_loc_e)
  : result mem_loc_e * option mem_loc_e :=
  match mem with
  | Some m => (Ok m, mem)
  | None =>
      let str := libc.transform libc.tolower FLAGS_in_mem in
      if str_eqb str "cache" then (Ok cache, Some cache)
      else if str_eqb str "llc" then (Ok llc, Some llc)
      else if str_eqb str "ram" then (Ok ram, Some ram)
      else if str_eqb str "pmem" then (Ok pmem, Some pmem)
      else (Throw "invalid input memory location", None)
  end.

Definition get_out_mem (FLAGS_out_mem : string) (mem : option mem_loc_e)
  : result mem_loc_e * option mem_loc_e :=
  match mem with
  | Some m => (Ok m, mem)
  | None =>
      let str := libc.transform libc.tolower FLAGS_out_mem in
      if str_eqb str "ram" then (Ok ram, Some ram)
      else if str_eqb str "pmem" then (Ok pmem, Some pmem)
      else if str_eqb str lit_cc_ram then (Ok cc_ram, Some cc_ram)
      else if str_eqb str lit_cc_pmem then (Ok cc_pmem, Some cc_pmem)
      else (Throw "invalid output memory location", None)
  end.

End cmd_mem.

(** ** [std::string] operations used by the harness *)

Module std.

Fixpoint drop (n : nat) (s : string) : string :=
  match n, s with
  | S n', String _ s' => drop n' s'
  | _, _ => s
  end.

Fixpoint take (n : nat) (s : string) : string :=
  match n, s with
  | S n', String c s' => String c (take n' s')
  | _, _ => EmptyString
  end.

(** First index at or after [idx] at which [pat] occurs, [s] being the
    text from [idx] on. *)
Fixpoint find_from (pat : string) (idx : nat) (s : string) : option nat :=
  if String.prefix pat s then Some idx
  else match s with
       | EmptyString => None
       | String _ s' => find_from pat (S idx) s'
       end.

(** [s.find(pat, pos)]; [None] is [std::string::npos]. *)
Definition find (s pat : string) (pos : nat) : option nat :=
  if (pos <=? String.length s)%nat then find_from pat pos (drop pos s)
  else None.

(** [s.find(pat, pos) == n] *)
Definition find_is (s pat : string) (pos n : nat) : bool :=
  match find s pat pos with
  | Some k => (k =? n)%nat
  | None => false
  end.

End std.

(** ** Block size ([bench::cmd::get_block_size]) *)

Module cmd_block.

(** The multiplier chosen from the upper-cased flag text. *)
Definition block_size_mult (str : string) : Z :=
  let size := String.length str in
  if ((2 <? size)%nat && std.find_is str "KB" (size - 2) (size - 2))
     || ((1 <? size)%nat && std.find_is str "K" (size - 1) (size - 1))
  then 1024
  else if ((2 <? size)%nat && std.find_is str "MB" (size - 2) (size - 2))
          || ((1 <? size)%nat && std.find_is str "M" (size - 1) (size - 1))
  then 1024 * 1024
  else 1.

(** [get_block_size]: [block_size] is the function's static (initially
    -1); the result is the outcome and the static afterwards.  The static
    is assigned before the format check, so it holds 0 after a throw. *)
Definition get_block_size (FLAGS_block_size : string) (block_size : Z)
  : result Z * Z :=
  if block_size <? 0 then
    let str := libc.transform libc.toupper FLAGS_block_size in
    let mult := block_size_mult str in
    let block_size := libc.atoi str in
    if (block_size =? 0) && negb (str_eqb str "0")
    then (Throw "invalid block size format", block_size)
    else
      let block_size := wrap_int32 (block_size * mult) in
      (Ok block_size, block_size)
  else (Ok block_size, block_size).

End cmd_block.

(** ** Flag parsing of the benchmark framework

    [benchmark::ParseStringFlag] and its siblings belong to the Google
    Benchmark library ([commandlineflags.cc]); they are transcribed here
    because [parse_local] is built from them.  Each returns [Some v] when
    the C++ function returns [true] after storing [v], and [None] when it
    returns [false] and leaves the flag alone. *)

Class Strtod := {
  double : Type;
  double_of_Z : Z -> double;
  (** [strtod(str, &end)]: the value and the text from [end] on *)
  strtod : string -> double * string
}.

Module benchmark.

Definition is_empty (s : string) : bool :=
  match s with EmptyString => true | _ => false end.

Definition ParseFlagValue (str flag : string) (def_optional : bool)
  : option string :=
  let flag_str := String.append "--" flag in
  let flag_len := String.length flag_str in
  if negb (String.prefix flag_str str) then None
  else
    let flag_end := std.drop flag_len str in
    if def_optional && is_empty flag_end then Some flag_end
    else match flag_end with
         | String "=" value => Some value
         | _ => None
         end.

Definition IsTruthyFlagValue (value : string) : bool :=
  match value with
  | String v EmptyString =>
      libc.isalnum v
      && negb (Ascii.eqb v "0" || Ascii.eqb v "f" || Ascii.eqb v "F"
               || Ascii.eqb v "n" || Ascii.eqb v "N")
  | String _ _ =>
      let value_lower := libc.transform libc.tolower value in
      negb (str_eqb value_lower "false" || str_eqb value_lower "no"
            || str_eqb value_lower "off")
  | EmptyString => true
  end.

Definition ParseInt32 (str : string) : option Z :=
  let '(long_value, end_) := libc.strtol str 10 in
  if negb (is_empty end_) then None
  else
    let result := wrap_int32 long_value in
    if (long_value =? LONG_MAX) || (long_value =? LONG_MIN)
       || negb (result =? long_value)
    then None
    else Some result.

Definition ParseDouble `{Strtod} (str : string) : option double :=
  let '(double_value, end_) := strtod str in
  if negb (is_empty end_) then None else Some double_value.

Definition ParseBoolFlag (str flag : string) : option bool :=
  match ParseFlagValue str flag true with
  | None => None
  | Some value_str => Some (IsTruthyFlagValue value_str)
  end.

Definition ParseInt32Flag (str flag : string) : option Z :=
  match ParseFlagValue str flag false with
  | None => None
  | Some value_str => ParseInt32 value_str
  end.

Definition ParseDoubleFlag `{Strtod} (str flag : string) : option double :=
  match ParseFlagValue str flag false with
  | None => None
  | Some value_str => ParseDouble value_str
  end.

Definition ParseStringFlag (str flag : string) : option string :=
  ParseFlagValue str flag false.

Definition IsFlag (str flag : string) : bool :=
  match ParseFlagValue str flag true with Some _ => true | None => false end.

End benchmark.

(** ** The flag store and the command line splicer ([bench::cmd]) *)

Module cmd.

Section Flags.
Context `{Strtod}.

(** The [FLAGS_*] globals that the [BM_DEFINE_*] lines declare. *)
Record flags : Type := {
  FLAGS_block_size : string;
  FLAGS_queue_size : Z;
  FLAGS_batch_size : Z;
  FLAGS_threads : Z;
  FLAGS_node : Z;
  FLAGS_dataset : string;
  FLAGS_in_mem : string;
  FLAGS_out_mem : string;
  FLAGS_full_time : bool;
  FLAGS_no_hw : bool;
  FLAGS_canned_part : double;
  FLAGS_canned_regen : bool
}.

Definition default_flags : flags := {|
  FLAGS_block_size := "-1";
  FLAGS_queue_size := 0;
  FLAGS_batch_size := 0;
  FLAGS_threads := 0;
  FLAGS_node := -1;
  FLAGS_dataset := "";
  FLAGS_in_mem := "llc";
  FLAGS_out_mem := lit_cc_ram;
  FLAGS_full_time := false;
  FLAGS_no_hw := false;
  FLAGS_canned_part := double_of_Z (-1);
  FLAGS_canned_regen := false
|}.

(** A parsed flag: which global a [Parse*Flag] call of [parse_local]
    wrote, and the value it stored there. *)
Inductive assignment : Type :=
| set_dataset (v : string)
| set_block_size (v : string)
| set_threads (v : Z)
| set_node (v : Z)
| set_full_time (v : bool)
| set_queue_size (v : Z)
| set_batch_size (v : Z)
| set_no_hw (v : bool)
| set_in_mem (v : string)
| set_out_mem (v : string)
| set_canned_part (v : double)
| set_canned_regen (v : bool).

Definition store (a : assignment) (F : flags) : flags :=
  let '(Build_flags bs qs bt th nd ds im om ft nh cp cr) := F in
  match a with
  | set_dataset v => Build_flags bs qs bt th nd v im om ft nh cp cr
  | set_block_size v => Build_flags v qs bt th nd ds im om ft nh cp cr
  | set_threads v => Build_flags bs qs bt v nd ds im om ft nh cp cr
  | set_node v => Build_flags bs qs bt th v ds im om ft nh cp cr
  | set_full_time v => Build_flags bs qs bt th nd ds im om v nh cp cr
  | set_queue_size v => Build_flags bs v bt th nd ds im om ft nh cp cr
  | set_batch_size v => Build_flags bs qs v th nd ds im om ft nh cp cr
  | set_no_hw v => Build_flags bs qs bt th nd ds im om ft v cp cr
  | set_in_mem v => Build_flags bs qs bt th nd ds v om ft nh cp cr
  | set_out_mem v => Build_flags bs qs bt th nd ds im v ft nh cp cr
  | set_canned_part v => Build_flags bs qs bt th nd ds im om ft nh v cr
  | set_canned_regen v => Build_flags bs qs bt th nd ds im om ft nh cp v
  end.

(** [a || b] of the condition of [parse_local]: [b] is tried only when
    [a] returned false. *)
Definition or_else {A} (a b : option A) : option A :=
  match a with Some _ => a | None => b end.
Infix "<||>" := or_else (at level 51, right associativity).

(** The condition of the [if] in [parse_local], in the order the source
    tries the flags: the assignment of the first call that returns true. *)
Definition parse_flag (arg : string) : option assignment :=
  (set_dataset <$> benchmark.ParseStringFlag arg "dataset") <||>
  (set_block_size <$> benchmark.ParseStringFlag arg "block_size") <||>
  (set_threads <$> benchmark.ParseInt32Flag arg "threads") <||>
  (set_node <$> benchmark.ParseInt32Flag arg "node") <||>
  (set_full_time <$> benchmark.ParseBoolFlag arg "full_time") <||>
  (set_queue_size <$> benchmark.ParseInt32Flag arg "queue_size") <||>
  (set_batch_size <$> benchmark.ParseInt32Flag arg "batch_size") <||>
  (set_no_hw <$> benchmark.ParseBoolFlag arg "no_hw") <||>
  (set_in_mem <$> benchmark.ParseStringFlag arg "in_mem") <||>
  (set_out_mem <$> benchmark.ParseStringFlag arg "out_mem") <||>
  (set_canned_part <$> benchmark.ParseDoubleFlag arg "canned_part") <||>
  (set_canned_regen <$> benchmark.ParseBoolFlag arg "canned_regen").

(** The inner loop [for(j = i; j != *argc - 1; ++j) argv[j] = argv[j + 1]]
    with [n] iterations left. *)
Fixpoint shift_left (n j : nat) (argv : list string) : list string :=
  match n with
  | O => argv
  | S n' => shift_left n' (S j) (<[j := nth (S j) argv EmptyString]> argv)
  end.

(** What [parse_local] works on: [*argc], the [argv] array, the flag
    store, and how often [print_help] has written the usage text. *)
Record splicer : Type := {
  argc : nat;
  argv : list string;
  FLAGS : flags;
  help_printed : nat
}.

(** [print_help()]: the usage text goes to the standard output. *)
Definition print_help (st : splicer) : splicer :=
  {| argc := argc st; argv := argv st; FLAGS := FLAGS st;
     help_printed := S (help_printed st) |}.

(** The loop of [parse_local] from index [i] on.  Every iteration either
    removes an argument or moves on, so [fuel] bounds the iterations;
    [None] is a run that is out of fuel. *)
Fixpoint parse_loop (fuel i : nat) (st : splicer) : option splicer :=
  if (i <? argc st)%nat then
    match fuel with
    | O => None
    | S fuel' =>
        let arg := nth i (argv st) EmptyString in
        match parse_flag arg with
        | Some a =>
            parse_loop fuel' i
              {| argc := argc st - 1;
                 argv := shift_left (argc st - 1 - i) i (argv st);
                 FLAGS := store a (FLAGS st);
                 help_printed := help_printed st |}
        | None =>
            parse_loop fuel' (S i)
              (if benchmark.IsFlag arg "help" then print_help st else st)
        end
    end
  else Some st.

(** [parse_local(&argc, argv)] when [argv] holds [argc] strings. *)
Definition parse_local (args : list string) (F : flags) : option splicer :=
  parse_loop (length args) 1
    {| argc := length args; argv := args; FLAGS := F; help_printed := 0 |}.

(** The argument list a later reader of [argc]/[argv] sees. *)
Definition remaining (st : splicer) : list string := firstn (argc st) (argv st).

End Flags.

End cmd.

(** ** Registry, hardware check, device count and system information
       ([bench::details]) *)

Module details.

(** *** Benchmark registry *)

(** [registry_t]: the callbacks in the order they were registered.  A
    callback is a [void()] function; [W] is the state it works on. *)
Definition registry_t (W : Type) : Type := list (W -> W).

(** Modelled from the spec: the registration call itself is not among the
    sources; "[register(callback)] appends to a process-wide ordered
    sequence". *)
Definition register {W} (reg : registry_t W) (callback : W -> W)
  : registry_t W :=
  reg ++ [callback].

(** [get_registry()] returns a reference to its static [reg]. *)
Definition get_registry {W} (reg : registry_t W) : registry_t W := reg.

(** [for(auto &reg : registry) reg();] of [main]: the state after the
    loop and the callbacks it invoked, oldest first.  The registry is only
    read. *)
Fixpoint drain {W} (registry : registry_t W) (w : W)
  : W * list (W -> W) :=
  match registry with
  | [] => (w, [])
  | reg :: rest =>
      let '(w', invoked) := drain rest (reg w) in (w', reg :: invoked)
  end.

(** *** Hardware readiness check *)

Definition qpl_status : Type := Z.
Definition QPL_STS_OK : qpl_status := 0.

Inductive qpl_path_t : Type :=
  qpl_path_auto | qpl_path_hardware | qpl_path_software.

Inductive qpl_operation : Type := qpl_op_crc64 | qpl_op_other (code : Z).

(** The fields of [qpl_job] that [init_hw] assigns; [next_in_ptr] is
    given by the bytes it points to. *)
Record qpl_job : Type := {
  next_in_ptr : list Z;
  available_in : Z;
  op : qpl_operation;
  crc64_poly : Z
}.

Definition poly : Z := 0x04C11DB700000000.

(** The calls into the QPL library, with what [init_hw] passes. *)
Inductive qpl_call : Type :=
| qpl_get_job_size (path : qpl_path_t)
| qpl_init_job (path : qpl_path_t) (buffer_size : Z)
| qpl_submit_job (job : qpl_job)
| qpl_wait_job (job : qpl_job)
| qpl_fini_job (job : qpl_job).

(** What a call gives back: its status and, for [qpl_get_job_size], the
    size written through the pointer. *)
Record reply : Type := { status : qpl_status; size_out : Z }.

(** Code that calls the library: it returns, throws, or makes a call and
    goes on with the reply. *)
Inductive prog (R : Type) : Type :=
| Ret (r : R)
| Raise (what : string)
| Call (c : qpl_call) (k : reply -> prog R).
Arguments Ret {R} r.
Arguments Raise {R} what.
Arguments Call {R} c k.

Definition failed (r : reply) : bool := negb (status r =? QPL_STS_OK).

(** Bytes of [int data = 0]. *)
Definition data : list Z := [0; 0; 0; 0].

Definition init_hw : prog bool :=
  Call (qpl_get_job_size qpl_path_hardware) (fun r1 =>
  if failed r1 then Raise "hw init failed in qpl_get_job_size" else
  let size := size_out r1 in
  Call (qpl_init_job qpl_path_hardware size) (fun r2 =>
  if failed r2 then Raise "hw init failed in qpl_init_job" else
  let job := {| next_in_ptr := data; available_in := 4;
                op := qpl_op_crc64; crc64_poly := poly |} in
  Call (qpl_submit_job job) (fun r3 =>
  if failed r3 then Raise "hw init failed in qpl_submit_job" else
  Call (qpl_wait_job job) (fun r4 =>
  if failed r4 then Raise "hw init failed in qpl_wait_job" else
  Call (qpl_fini_job job) (fun r5 =>
  if failed r5 then Raise "hw init failed in qpl_fini_job" else
  Ret true))))).

(** Running against a library [lib] with state [hw]: the outcome, the
    library state and the calls made with their replies, oldest first. *)
Fixpoint run {R HW} (lib : qpl_call -> HW -> reply * HW) (p : prog R) (hw : HW)
  : result R * HW * list (qpl_call * reply) :=
  match p with
  | Ret r => (Ok r, hw, [])
  | Raise what => (Throw what, hw, [])
  | Call c k =>
      let '(r, hw') := lib c hw in
      let '(res, hw'', calls) := run lib (k r) hw' in
      (res, hw'', (c, r) :: calls)
  end.

(** The library function a call enters. *)
Inductive qpl_entry : Type :=
  get_job_size | init_job | submit_job | wait_job | fini_job.

Definition entry_of (c : qpl_call) : qpl_entry :=
  match c with
  | qpl_get_job_size _ => get_job_size
  | qpl_init_job _ _ => init_job
  | qpl_submit_job _ => submit_job
  | qpl_wait_job _ => wait_job
  | qpl_fini_job _ => fini_job
  end.

Definition entry_name (e : qpl_entry) : string :=
  match e with
  | get_job_size => "qpl_get_job_size"
  | init_job => "qpl_init_job"
  | submit_job => "qpl_submit_job"
  | wait_job => "qpl_wait_job"
  | fini_job => "qpl_fini_job"
  end.

(** *** Device count *)

(** [(uint64_t)(-1)], the locality of a device whose node is unknown. *)
Definition numa_unknown : Z := wrap_uint64 (-1).

(** The body of the loop in [get_num_devices] for one device:
    [numa_id] is [device.numa_id()], a [uint64_t] as the casts of the
    second comparison have it (the dispatcher's header is not among the
    sources); [numa] is the [std::uint32_t] argument, which both
    comparisons widen to 64 bits. *)
Definition count_device (numa : Z) (counter : Z) (numa_id : Z) : Z :=
  if numa_id =? wrap_uint64 numa then wrap_int32 (counter + 1)
  else if negb (numa_id =? wrap_uint64 numa) && (numa_id =? numa_unknown)
  then wrap_int32 (counter + 1)
  else counter.

(** [get_num_devices(numa)] over the devices of the dispatcher, each given
    by its [numa_id()]. *)
Definition get_num_devices (disp : list Z) (numa : Z) : Z :=
  fold_left (count_device numa) disp 0.

(** [get_current_numa_accels], [tsc_aux] being what [__rdtscp] stored. *)
Definition get_current_numa_accels (disp : list Z) (tsc_aux : Z) : Z :=
  get_num_devices disp (wrap_uint32 (Z.shiftr tsc_aux 12)).

End details.

(** *** System information *)

Module sysinfo.

(** [accel_info_t] and [extended_info_t] are declared in a header that is
    not among the sources.  The counters are taken as [std::uint32_t], the
    type the [std::max] calls of the build fix for [cpu_sockets] and
    [cpu_physical_per_socket]; all start at zero and the strings empty. *)
Record accel_info_t : Type := {
  total_devices : Z;
  socket : list Z
}.

Record extended_info_t : Type := {
  host_name : string;
  kernel : string;
  cpu_model_name : string;
  cpu_model : Z;
  cpu_microcode : Z;
  cpu_stepping : Z;
  cpu_logical_cores : Z;
  cpu_physical_cores : Z;
  cpu_sockets : Z;
  cpu_physical_per_socket : Z;
  cpu_physical_per_cluster : Z;
  accelerators : accel_info_t
}.

Definition empty_info : extended_info_t := {|
  host_name := ""; kernel := ""; cpu_model_name := "";
  cpu_model := 0; cpu_microcode := 0; cpu_stepping := 0;
  cpu_logical_cores := 0; cpu_physical_cores := 0; cpu_sockets := 0;
  cpu_physical_per_socket := 0; cpu_physical_per_cluster := 0;
  accelerators := {| total_devices := 0; socket := [] |}
|}.

(** Modelled from the spec: [trim] is declared in the missing header;
    a key and a value are "trimmed of surrounding whitespace". *)
Fixpoint trim_right (s : string) : string :=
  match s with
  | EmptyString => EmptyString
  | String c s' =>
      let r := trim_right s' in
      if libc.isspace c && benchmark.is_empty r then EmptyString
      else String c r
  end.

Definition trim (s : string) : string := trim_right (libc.skip_space s).

(** What a line of the descriptor table splits into: [None] for a line
    the loop skips ([continue]), else the trimmed key and value. *)
Definition split_line (line : string) : option (string * string) :=
  if benchmark.is_empty line then None
  else match std.find line ":" 0 with
       | None => None
       | Some del_index =>
           let key := std.take del_index line in
           let val := std.drop (del_index + 1) line in
           Some (trim key, trim val)
       end.

(** The [if]/[else if] chain on one key and value. *)
Definition descriptor (info : extended_info_t) (key val : string)
  : extended_info_t :=
  let '(Build_extended_info_t hn kr mn md mc st lc pc sk ps pcl ac) := info in
  if str_eqb key "processor" then
    Build_extended_info_t hn kr mn md mc st (wrap_uint32 (lc + 1)) pc sk ps pcl ac
  else if str_eqb key "physical id" then
    Build_extended_info_t hn kr mn md mc st lc pc
      (Z.max sk (wrap_uint32 (wrap_uint32 (libc.atoi val) + 1))) ps pcl ac
  else if (ps =? 0) && str_eqb key "cpu cores" then
    Build_extended_info_t hn kr mn md mc st lc pc sk
      (Z.max ps (wrap_uint32 (libc.atoi val))) pcl ac
  else if (String.length mn =? 0)%nat && str_eqb key "model name" then
    Build_extended_info_t hn kr val md mc st lc pc sk ps pcl ac
  else if (md =? 0) && str_eqb key "model" then
    Build_extended_info_t hn kr mn (wrap_uint32 (libc.atoi val)) mc st lc pc sk ps pcl ac
  else if (mc =? 0) && str_eqb key "microcode" then
    Build_extended_info_t hn kr mn md (wrap_uint32 (fst (libc.strtol val 16)))
      st lc pc sk ps pcl ac
  else if (st =? 0) && str_eqb key "stepping" then
    Build_extended_info_t hn kr mn md mc (wrap_uint32 (libc.atoi val)) lc pc sk ps pcl ac
  else info.

(** The body of the [while (std::getline(info_file, line))] loop. *)
Definition read_line (info : extended_info_t) (line : string)
  : extended_info_t :=
  match split_line line with
  | None => info
  | Some (key, val) => descriptor info key val
  end.

Definition clusters_per_socket : Z := 4.

Definition derive (info : extended_info_t) : extended_info_t :=
  let '(Build_extended_info_t hn kr mn md mc st lc pc sk ps pcl ac) := info in
  Build_extended_info_t hn kr mn md mc st lc
    (wrap_uint32 (ps * sk)) sk ps (ps / clusters_per_socket) ac.

(** One iteration of the loop over the sockets. *)
Definition add_socket (disp : list Z) (ac : accel_info_t) (i : nat)
  : accel_info_t :=
  let devices := details.get_num_devices disp (Z.of_nat i) in
  {| total_devices := wrap_uint32 (total_devices ac + devices);
     socket := socket ac ++ [devices] |}.

Definition count_accelerators (disp : list Z) (info : extended_info_t)
  : extended_info_t :=
  let '(Build_extended_info_t hn kr mn md mc st lc pc sk ps pcl ac) := info in
  Build_extended_info_t hn kr mn md mc st lc pc sk ps pcl
    (fold_left (add_socket disp) (seq 0 (Z.to_nat sk)) ac).

Definition set_identity (nodename release : string) (info : extended_info_t)
  : extended_info_t :=
  let '(Build_extended_info_t _ _ mn md mc st lc pc sk ps pcl ac) := info in
  Build_extended_info_t nodename release mn md mc st lc pc sk ps pcl ac.

(** What the build reads from the machine: [uname], the lines of
    [/proc/cpuinfo] ([None] when the file cannot be opened) and the
    devices of the dispatcher. *)
Record machine : Type := {
  nodename : string;
  release : string;
  proc_cpuinfo : option (list string);
  devices : list Z
}.

(** The build once the descriptor table is open: the loop over its
    lines, the derived counts and the loop over the sockets. *)
Definition build (m : machine) (lines : list string) (info : extended_info_t)
  : extended_info_t :=
  count_accelerators (devices m) (derive (fold_left read_line lines info)).

(** The statics of [get_sys_info], and the summaries written to the
    standard output so far. *)
Record statics : Type := {
  info : extended_info_t;
  is_setup : bool;
  guard_locked : bool;
  printed : list extended_info_t
}.

Definition initial : statics :=
  {| info := empty_info; is_setup := false; guard_locked := false;
     printed := [] |}.

(** [get_sys_info()]: [None] when [guard.lock()] never returns; else the
    snapshot referred to (or the exception) and the statics afterwards.
    The exception leaves the guard locked. *)
Definition get_sys_info (m : machine) (s : statics)
  : option (result extended_info_t * statics) :=
  if guard_locked s then None
  else if negb (is_setup s) then
    let info1 := set_identity (nodename m) (release m) (info s) in
    match proc_cpuinfo m with
    | None =>
        Some (Throw "Failed to open /proc/cpuinfo",
              {| info := info1; is_setup := false; guard_locked := true;
                 printed := printed s |})
    | Some lines =>
        let info3 := build m lines info1 in
        Some (Ok info3,
              {| info := info3; is_setup := true; guard_locked := false;
                 printed := printed s ++ [info3] |})
    end
  else Some (Ok (info s), s).

End sysinfo.

(** ** Entry point *)

Module entry.

(** The benchmark framework as [main] uses it, working on a state [W]
    that the registered callbacks share. *)
Record framework (W : Type) : Type := {
  Initialize : list string -> W -> list string * W;
  ReportUnrecognizedArguments : list string -> bool;
  RunSpecifiedBenchmarks : W -> Z * W;
  Shutdown : W -> W
}.
Arguments Initialize {W} f.
Arguments ReportUnrecognizedArguments {W} f.
Arguments RunSpecifiedBenchmarks {W} f.
Arguments Shutdown {W} f.

(** What [main] did, in order. *)
Inductive step : Type :=
| did_parse_local
| did_Initialize (args : list string)
| did_ReportUnrecognizedArguments (args : list string)
| did_get_sys_info
| did_init_hw
| did_callbacks (n : nat)
| did_RunSpecifiedBenchmarks
| did_Shutdown.

(** How the process ends: [main] returns, an exception leaves [main], or
    a call never returns. *)
Inductive exit : Type :=
| Returned (code : Z)
| Uncaught (what : string)
| Blocked.

Section Main.
Context `{Strtod} {W HW : Type}.

(** The state of the process when it ends. *)
Record process : Type := {
  args_left : list string;
  flag_store : cmd.flags;
  sys : sysinfo.statics;
  hw : HW;
  world : W;
  qpl_calls : list (details.qpl_call * details.reply);
  invoked : list (W -> W);
  steps : list step
}.

(** [main(argc, argv)], started with the flag store [F], the statics [s]
    of [get_sys_info], the library state [hw0], the shared state [w0] and
    the registry the static initialisers have filled.  [None] only when
    the loop of [parse_local] is out of fuel. *)
Definition main (fw : framework W)
    (lib : details.qpl_call -> HW -> details.reply * HW)
    (m : sysinfo.machine) (registry : details.registry_t W)
    (args : list string) (F : cmd.flags) (s : sysinfo.statics)
    (hw0 : HW) (w0 : W) : option (exit * process) :=
  match cmd.parse_local args F with
  | None => None
  | Some sp =>
      let F1 := cmd.FLAGS sp in
      let '(args1, w1) := Initialize fw (cmd.remaining sp) w0 in
      let t3 := [did_parse_local; did_Initialize (cmd.remaining sp);
                 did_ReportUnrecognizedArguments args1] in
      if ReportUnrecognizedArguments fw args1 then
        Some (Returned 1, Build_process args1 F1 s hw0 w1 [] [] t3)
      else
        let t4 := t3 ++ [did_get_sys_info] in
        match sysinfo.get_sys_info m s with
        | None => Some (Blocked, Build_process args1 F1 s hw0 w1 [] [] t4)
        | Some (Throw what, s1) =>
            Some (Uncaught what, Build_process args1 F1 s1 hw0 w1 [] [] t4)
        | Some (Ok _, s1) =>
            let '(checked, hw1, calls, t5) :=
              if negb (cmd.FLAGS_no_hw F1) then
                let '(r, hw1, calls) := details.run lib details.init_hw hw0 in
                (r, hw1, calls, t4 ++ [did_init_hw])
              else (Ok true, hw0, [], t4) in
            match checked with
            | Throw what =>
                Some (Uncaught what,
                      Build_process args1 F1 s1 hw1 w1 calls [] t5)
            | Ok _ =>
                let '(w2, called) :=
                  details.drain (details.get_registry registry) w1 in
                let '(_, w3) := RunSpecifiedBenchmarks fw w2 in
                let w4 := Shutdown fw w3 in
                Some (Returned 0,
                      Build_process args1 F1 s1 hw1 w4 calls called
                        (t5 ++ [did_callbacks (length called);
                                did_RunSpecifiedBenchmarks; did_Shutdown]))
            end
        end
  end.

End Main.

End entry.

(** ** Vocabulary of the statements *)

(** Number of devices of [disp] whose [numa_id()] is [l]. *)
Definition devices_at (l : Z) (disp : list Z) : Z :=
  Z.of_nat (count_occ Z.eq_dec disp l).

(** The device list of the enumerator example. *)
Definition example_devices : list Z :=
  [0; 0; 1; details.numa_unknown; details.numa_unknown].

(** A call whose reply carries the status [QPL_STS_OK]. *)
Definition succeeded (cr : details.qpl_call * details.reply) : bool :=
  details.status (snd cr) =? details.QPL_STS_OK.

(** The job [init_hw] submits. *)
Definition crc_job : details.qpl_job :=
  {| details.next_in_ptr := details.data; details.available_in := 4;
     details.op := details.qpl_op_crc64; details.crc64_poly := details.poly |}.

(** The five steps of the readiness check. *)
Definition handshake : list details.qpl_entry :=
  [details.get_job_size; details.init_job; details.submit_job;
   details.wait_job; details.fini_job].

(** The key and value pairs the build sees, skipped lines left out. *)
Definition table (lines : list string) : list (string * string) :=
  omap sysinfo.split_line lines.

(** The value of the first pair with key [k], if there is one. *)
Fixpoint first_occurrence (k : string) (pairs : list (string * string))
  : option string :=
  match pairs with
  | [] => None
  | (k', v) :: rest =>
      if str_eqb k' k then Some v else first_occurrence k rest
  end.

(** The first non-zero [conv v] among the pairs with key [k]; 0 if none. *)
Fixpoint first_nonzero (conv : string -> Z) (k : string)
    (pairs : list (string * string)) : Z :=
  match pairs with
  | [] => 0
  | (k', v) :: rest =>
      if str_eqb k' k && negb (conv v =? 0) then conv v
      else first_nonzero conv k rest
  end.

(** The first non-empty value among the pairs with key [k]; empty if
    none. *)
Fixpoint first_nonempty (k : string) (pairs : list (string * string))
  : string :=
  match pairs with
  | [] => EmptyString
  | (k', v) :: rest =>
      if str_eqb k' k && negb (String.length v =? 0)%nat then v
      else first_nonempty k rest
  end.

(** The values of the pairs with key [k], in order. *)
Fixpoint values_of (k : string) (pairs : list (string * string))
  : list string :=
  match pairs with
  | [] => []
  | (k', v) :: rest =>
      if str_eqb k' k then v :: values_of k rest else values_of k rest
  end.

(** How the build reads a value: as a decimal [int] or a hexadecimal
    [long], stored in 32 bits. *)
Definition as_decimal (v : string) : Z := wrap_uint32 (libc.atoi v).
Definition as_hex (v : string) : Z := wrap_uint32 (fst (libc.strtol v 16)).

(** The socket count a [physical id] value stands for: its index plus
    one, in 32 bits. *)
Definition socket_count (v : string) : Z :=
  wrap_uint32 (wrap_uint32 (libc.atoi v) + 1).

(** A descriptor table with two [stepping] lines, the first of them with
    the value 0. *)
Definition stepping_twice : list string :=
  ["stepping : 0"; "stepping : 5"]%string.

(** The [if]/[else if] chain applied to the pairs in turn. *)
Definition scan (pairs : list (string * string))
    (info : sysinfo.extended_info_t) : sysinfo.extended_info_t :=
  fold_left (fun i kv => sysinfo.descriptor i (fst kv) (snd kv)) pairs info.

(** A machine with the given descriptor table and no accelerator. *)
Definition machine_with (lines : list string) : sysinfo.machine :=
  {| sysinfo.nodename := "host"; sysinfo.release := "6.1";
     sysinfo.proc_cpuinfo := Some lines; sysinfo.devices := [] |}.

(** The snapshot the first call of [get_sys_info] builds on [m] from the
    table [lines]. *)
Definition first_build (m : sysinfo.machine) (lines : list string)
  : sysinfo.extended_info_t :=
  sysinfo.build m lines
    (sysinfo.set_identity (sysinfo.nodename m) (sysinfo.release m)
       sysinfo.empty_info).

(** Calls of [get_sys_info] one after the other, on the machine as it is
    at each call: what the calls returned and the statics at the end;
    [None] when one of them never returns. *)
Fixpoint sys_info_calls (ms : list sysinfo.machine) (s : sysinfo.statics)
  : option (list (result sysinfo.extended_info_t) * sysinfo.statics) :=
  match ms with
  | [] => Some ([], s)
  | m :: ms' =>
      match sysinfo.get_sys_info m s with
      | None => None
      | Some (r, s') =>
          match sys_info_calls ms' s' with
          | None => None
          | Some (rs, s'') => Some (r :: rs, s'')
          end
      end
  end.

(** The flag text in upper and in lower case. *)
Definition upper (s : string) : string := libc.transform libc.toupper s.
Definition lower (s : string) : string := libc.transform libc.tolower s.

(** The multiplier read off the last two characters [x], [c] of the
    upper-cased text, [p] being what stands before them. *)
Definition mult_of_tail (p : string) (x c : ascii) : Z :=
  let two := String x (String c EmptyString) in
  let one := String c EmptyString in
  if (negb (benchmark.is_empty p) && String.prefix "KB" two)
     || String.prefix "K" one then 1024
  else if (negb (benchmark.is_empty p) && String.prefix "MB" two)
          || String.prefix "M" one then 1024 * 1024
  else 1.

(** The splicer seen from outside. *)
Section Splicer.
Context `{Strtod}.

(** A token none of the [Parse*Flag] calls of [parse_local] accepts. *)
Definition unrecognized (arg : string) : bool :=
  match cmd.parse_flag arg with None => true | Some _ => false end.

(** The flag store after [parse_local] has looked at [arg]. *)
Definition assign (F : cmd.flags) (arg : string) : cmd.flags :=
  match cmd.parse_flag arg with
  | Some a => cmd.store a F
  | None => F
  end.

(** A token for which [parse_local] prints the usage text. *)
Definition asks_help (arg : string) : bool :=
  unrecognized arg && benchmark.IsFlag arg "help".

(** The program name followed by the unrecognized tokens after it. *)
Definition spliced (args : list string) : list string :=
  match args with
  | [] => []
  | prog :: rest => prog :: List.filter unrecognized rest
  end.

(** The global an assignment writes. *)
Inductive flag_name : Type :=
| f_dataset | f_block_size | f_threads | f_node | f_full_time
| f_queue_size | f_batch_size | f_no_hw | f_in_mem | f_out_mem
| f_canned_part | f_canned_regen.

Definition flag_of (a : cmd.assignment) : flag_name :=
  match a with
  | cmd.set_dataset _ => f_dataset
  | cmd.set_block_size _ => f_block_size
  | cmd.set_threads _ => f_threads
  | cmd.set_node _ => f_node
  | cmd.set_full_time _ => f_full_time
  | cmd.set_queue_size _ => f_queue_size
  | cmd.set_batch_size _ => f_batch_size
  | cmd.set_no_hw _ => f_no_hw
  | cmd.set_in_mem _ => f_in_mem
  | cmd.set_out_mem _ => f_out_mem
  | cmd.set_canned_part _ => f_canned_part
  | cmd.set_canned_regen _ => f_canned_regen
  end.

(** The flag store [F] holds the value of [a] in the global of [a]. *)
Definition holds (a : cmd.assignment) (F : cmd.flags) : Prop :=
  cmd.store a F = F.

(** No token of [args] is accepted for the global that [a] writes. *)
Definition not_set_again (a : cmd.assignment) (args : list string) : Prop :=
  forall arg a', In arg args -> cmd.parse_flag arg = Some a' ->
                 flag_of a' <> flag_of a.

End Splicer.

(** A [strtod] that reads decimal integers only, for argument lists
    without a [canned_part] token. *)
Definition integers_only : Strtod :=
  {| double := Z; double_of_Z := fun z => z;
     strtod := fun s => libc.strtol s 10 |}.

(** The argument list of the end-to-end scenario, and one whose program
    name reads as a flag. *)
Definition scenario_args : list string :=
  ["prog"; "--block_size=4K"; "--no_hw"; "--foo"]%string.
Definition flag_as_program_name : list string := ["--no_hw"]%string.

(** The steps of a run of [main] that reaches its [return 0], [args1]
    being what [parse_local] left, [args2] what the framework's
    [Initialize] left, and [n] the number of registered callbacks. *)
Definition full_run (no_hw : bool) (args1 args2 : list string) (n : nat)
  : list entry.step :=
  [entry.did_parse_local; entry.did_Initialize args1;
   entry.did_ReportUnrecognizedArguments args2; entry.did_get_sys_info]
  ++ (if no_hw then [] else [entry.did_init_hw])
  ++ [entry.did_callbacks n; entry.did_RunSpecifiedBenchmarks;
      entry.did_Shutdown].

(** A framework whose state counts the registered benchmarks: it takes no
    argument for itself, reports any argument after the program name, and
    its measurement loop returns the number of benchmarks it ran. *)
Definition counting_framework : entry.framework nat :=
  {| entry.Initialize := fun args w => (args, w);
     entry.ReportUnrecognizedArguments := fun args => (1 <? length args)%nat;
     entry.RunSpecifiedBenchmarks := fun w => (Z.of_nat w, w);
     entry.Shutdown := fun w => w |}.

(** A library every call of which succeeds. *)
Definition ready_library (c : details.qpl_call) (hw : unit)
  : details.reply * unit :=
  ({| details.status := details.QPL_STS_OK; details.size_out := 64 |}, hw).

(** A registry of three callbacks, each registering one benchmark. *)
Definition three_benchmarks : details.registry_t nat := [S; S; S].

(** ** The extract example ([examples/low-level-api/extract_example.cpp]) *)

Module extract_example.

Definition source_size : Z := 1000.
Definition input_vector_width : Z := 8.
Definition lower_index : Z := 80.
Definition upper_index : Z := 123.

Inductive qpl_operation : Type := qpl_op_extract.
Inductive qpl_out_format : Type := qpl_ow_nom.

(** The fields of [qpl_job] that [main] assigns; the two pointers are
    given by the bytes of the vectors they point into. *)
Record qpl_job : Type := {
  next_in_ptr : list Z;
  available_in : Z;
  next_out_ptr : list Z;
  available_out : Z;
  op : qpl_operation;
  src1_bit_width : Z;
  param_low : Z;
  param_high : Z;
  num_input_elements : Z;
  out_bit_width : qpl_out_format
}.

(** What [main] calls, with what it passes. *)
Inductive call : Type :=
| qpl_get_job_size (path : details.qpl_path_t)
| malloc (size : Z)
| qpl_init_job (path : details.qpl_path_t)
| qpl_execute_job (job : qpl_job)
| qpl_fini_job
| free.

(** What a call gives back: its status; for [qpl_get_job_size] the size
    written through the pointer; for [qpl_execute_job] the field
    [total_out] of the job and the bytes of [destination] after the
    call. *)
Record reply : Type := {
  status : details.qpl_status;
  size_out : Z;
  total_out : Z;
  output : list Z
}.

(** How [main] ends: it returns, an exception leaves it, or it reads a
    vector outside its bounds. *)
Inductive ending : Type :=
| Returned (code : Z) (printed : list string)
| Uncaught (what : string)
| Out_of_bounds.

Inductive prog : Type :=
| End (e : ending)
| Call (c : call) (k : reply -> prog).

Definition failed (r : reply) : bool :=
  negb (status r =? details.QPL_STS_OK).

(** [std::vector<uint8_t> source(source_size, 0)] after
    [std::iota(begin, end, 0)]: the element at [i] is [i] in 8 bits. *)
Definition source : list Z :=
  map (fun i => Z.of_nat i mod 256) (seq 0 (Z.to_nat source_size)).

(** [std::vector<uint8_t> destination(source_size, 4)] *)
Definition destination : list Z := repeat 4 (Z.to_nat source_size).

(** The loop that checks the output, with [n] iterations left at index
    [i]: [None] when it runs through, else how the program ends. *)
Fixpoint verify (n i : nat) (destination source : list Z) : option ending :=
  match n with
  | O => None
  | S n' =>
      match nth_error destination i,
            nth_error source (i + Z.to_nat lower_index) with
      | Some d, Some s =>
          if negb (d =? s)
          then Some (Uncaught
                 "Incorrect value was chosen while operation performing.")
          else verify n' (S i) destination source
      | _, _ => Some Out_of_bounds
      end
  end.

(** [main], [parse_ret] and [execution_path] being what
    [parse_execution_path] (declared in a header that is not among the
    sources) returned and stored. *)
Definition main (parse_ret : Z) (execution_path : details.qpl_path_t) : prog :=
  if negb (parse_ret =? 0) then End (Returned 1 [])
  else
  Call (qpl_get_job_size execution_path) (fun r1 =>
  if failed r1
  then End (Uncaught "An error acquired during job size getting.") else
  Call (malloc (size_out r1)) (fun _ =>
  Call (qpl_init_job execution_path) (fun r2 =>
  if failed r2
  then End (Uncaught "An error acquired during job initializing.") else
  let job := {| next_in_ptr := source; available_in := source_size;
                next_out_ptr := destination;
                available_out := wrap_uint32 (Z.of_nat (length destination));
                op := qpl_op_extract; src1_bit_width := input_vector_width;
                param_low := lower_index; param_high := upper_index;
                num_input_elements := source_size;
                out_bit_width := qpl_ow_nom |} in
  Call (qpl_execute_job job) (fun r3 =>
  if failed r3
  then End (Uncaught "An error acquired during job execution.") else
  let extract_size := total_out r3 in
  let destination := output r3 in
  Call qpl_fini_job (fun r4 =>
  if failed r4
  then End (Uncaught "An error acquired during job finalization.") else
  Call free (fun _ =>
  match verify (Z.to_nat extract_size) 0 destination source with
  | Some e => End e
  | None => End (Returned 0 ["Extract was performed successfully."%string])
  end)))))).

(** Running against a library and allocator [lib] with state [hw]: how
    the program ends, the state, and the calls made with their replies,
    oldest first. *)
Fixpoint run {HW} (lib : call -> HW -> reply * HW) (p : prog) (hw : HW)
  : ending * HW * list (call * reply) :=
  match p with
  | End e => (e, hw, [])
  | Call c k =>
      let '(r, hw') := lib c hw in
      let '(e, hw'', calls) := run lib (k r) hw' in
      (e, hw'', (c, r) :: calls)
  end.

End extract_example.

(** The calls of a run that entered [f]. *)
Definition calls_of (f : extract_example.call -> bool)
    (calls : list (extract_example.call * extract_example.reply))
  : list (extract_example.call * extract_example.reply) :=
  List.filter (fun cr => f (fst cr)) calls.

Definition is_malloc (c : extract_example.call) : bool :=
  match c with extract_example.malloc _ => true | _ => false end.
Definition is_free (c : extract_example.call) : bool :=
  match c with extract_example.free => true | _ => false end.
Definition is_fini (c : extract_example.call) : bool :=
  match c with extract_example.qpl_fini_job => true | _ => false end.

Definition is_get_size (c : extract_example.call) : bool :=
  match c with extract_example.qpl_get_job_size _ => true | _ => false end.

(** A call of the example whose reply carries the status
    [QPL_STS_OK]. *)
Definition went_well (cr : extract_example.call * extract_example.reply)
  : bool :=
  extract_example.status (snd cr) =? details.QPL_STS_OK.

(** A token that asks for the usage text. *)
Definition is_help (arg : string) : bool := benchmark.IsFlag arg "help".

(** The job the example executes. *)
Definition extract_job : extract_example.qpl_job :=
  {| extract_example.next_in_ptr := extract_example.source;
     extract_example.available_in := 1000;
     extract_example.next_out_ptr := extract_example.destination;
     extract_example.available_out := 1000;
     extract_example.op := extract_example.qpl_op_extract;
     extract_example.src1_bit_width := 8;
     extract_example.param_low := 80;
     extract_example.param_high := 123;
     extract_example.num_input_elements := 1000;
     extract_example.out_bit_width := extract_example.qpl_ow_nom |}.

(** The calls of the example in the order it makes them, [size] being
    the job size the library gave. *)
Definition extract_calls (path : details.qpl_path_t) (size : Z)
  : list extract_example.call :=
  [extract_example.qpl_get_job_size path; extract_example.malloc size;
   extract_example.qpl_init_job path;
   extract_example.qpl_execute_job extract_job;
   extract_example.qpl_fini_job; extract_example.free].

(** The exception of the example for a failure of the call [c]. *)
Definition extract_error (c : extract_example.call) : string :=
  match c with
  | extract_example.qpl_get_job_size _ =>
      "An error acquired during job size getting."
  | extract_example.qpl_init_job _ =>
      "An error acquired during job initializing."
  | extract_example.qpl_execute_job _ =>
      "An error acquired during job execution."
  | extract_example.qpl_fini_job =>
      "An error acquired during job finalization."
  | _ => ""
  end.

(** The calls into the library proper, whose status the example tests. *)
Definition is_qpl (c : extract_example.call) : bool :=
  negb (is_malloc c || is_free c).

(** A library that executes the extract as documented and an allocator
    that succeeds: the output is the elements 80 to 123 of the input. *)
Definition extracting_library (c : extract_example.call) (hw : unit)
  : extract_example.reply * unit :=
  ({| extract_example.status := details.QPL_STS_OK;
      extract_example.size_out := 4096;
      extract_example.total_out := 44;
      extract_example.output :=
        map Z.of_nat (seq 80 44) ++ repeat 4 956 |}, hw).

(** How the example ends once all its calls have succeeded, [r] being
    the reply of [qpl_execute_job]. *)
Definition checked_ending (r : extract_example.reply)
  : extract_example.ending :=
  match extract_example.verify (Z.to_nat (extract_example.total_out r)) 0
          (extract_example.output r) extract_example.source with
  | Some e => e
  | None =>
      extract_example.Returned 0 ["Extract was performed successfully."%string]
  end.

(** The runs of the example that start with a successful
    [parse_execution_path]: the calls made with their replies, and the
    ending.  A run stops at the first library call whose reply has a
    status other than [QPL_STS_OK]. *)
Inductive extract_trace (path : details.qpl_path_t)
  : list (extract_example.call * extract_example.reply)
    -> extract_example.ending -> Prop :=
| size_failed r1 :
    extract_example.status r1 <> details.QPL_STS_OK ->
    extract_trace path
      [(extract_example.qpl_get_job_size path, r1)]
      (extract_example.Uncaught "An error acquired during job size getting.")
| init_failed r1 r2 r3 :
    extract_example.status r1 = details.QPL_STS_OK ->
    extract_example.status r3 <> details.QPL_STS_OK ->
    extract_trace path
      [(extract_example.qpl_get_job_size path, r1);
       (extract_example.malloc (extract_example.size_out r1), r2);
       (extract_example.qpl_init_job path, r3)]
      (extract_example.Uncaught "An error acquired during job initializing.")
| execute_failed r1 r2 r3 r4 :
    extract_example.status r1 = details.QPL_STS_OK ->
    extract_example.status r3 = details.QPL_STS_OK ->
    extract_example.status r4 <> details.QPL_STS_OK ->
    extract_trace path
      [(extract_example.qpl_get_job_size path, r1);
       (extract_example.malloc (extract_example.size_out r1), r2);
       (extract_example.qpl_init_job path, r3);
       (extract_example.qpl_execute_job extract_job, r4)]
      (extract_example.Uncaught "An error acquired during job execution.")
| fini_failed r1 r2 r3 r4 r5 :
    extract_example.status r1 = details.QPL_STS_OK ->
    extract_example.status r3 = details.QPL_STS_OK ->
    extract_example.status r4 = details.QPL_STS_OK ->
    extract_example.status r5 <> details.QPL_STS_OK ->
    extract_trace path
      [(extract_example.qpl_get_job_size path, r1);
       (extract_example.malloc (extract_example.size_out r1), r2);
       (extract_example.qpl_init_job path, r3);
       (extract_example.qpl_execute_job extract_job, r4);
       (extract_example.qpl_fini_job, r5)]
      (extract_example.Uncaught "An error acquired during job finalization.")
| all_succeeded r1 r2 r3 r4 r5 r6 :
    extract_example.status r1 = details.QPL_STS_OK ->
    extract_example.status r3 = details.QPL_STS_OK ->
    extract_example.status r4 = details.QPL_STS_OK ->
    extract_example.status r5 = details.QPL_STS_OK ->
    extract_trace path
      [(extract_example.qpl_get_job_size path, r1);
       (extract_example.malloc (extract_example.size_out r1), r2);
       (extract_example.qpl_init_job path, r3);
       (extract_example.qpl_execute_job extract_job, r4);
       (extract_example.qpl_fini_job, r5);
       (extract_example.free, r6)]
      (checked_ending r4).

(** Number of devices of [disp] whose [numa_id()] is a node below [n]. *)
Definition devices_below (n : nat) (disp : list Z) : Z :=
  Z.of_nat (length (List.filter (fun d => (0 <=? d) && (d <? Z.of_nat n)) disp)).

(** The counts [get_num_devices] gives for the nodes 0 to [n - 1]. *)
Definition per_socket_counts (disp : list Z) (n : nat) : list Z :=
  map (fun i => details.get_num_devices disp (Z.of_nat i)) (seq 0 n).

Definition sum_Z (l : list Z) : Z := fold_right Z.add 0 l.

(** A text with a colon in it. *)
Fixpoint has_colon (s : string) : bool :=
  match s with
  | EmptyString => false
  | String c s' => Ascii.eqb c ":" || has_colon s'
  end.

(** The keys the build looks for. *)
Definition known_key (k : string) : bool :=
  str_eqb k "processor" || str_eqb k "physical id" || str_eqb k "cpu cores"
  || str_eqb k "model name" || str_eqb k "model" || str_eqb k "microcode"
  || str_eqb k "stepping".

(** A line the build passes over: one it skips, or one with another
    key. *)
Definition passed_over (line : string) : bool :=
  match sysinfo.split_line line with
  | None => true
  | Some (k, _) => negb (known_key k)
  end.

(** A machine whose descriptor table cannot be opened. *)
Definition machine_without_cpuinfo : sysinfo.machine :=
  {| sysinfo.nodename := "host"; sysinfo.release := "6.1";
     sysinfo.proc_cpuinfo := None; sysinfo.devices := [] |}.

(** * Properties *)

(** ** The model on concrete inputs *)

Example strtol_decimal : libc.strtol "  -12ab" 10 = (-12, "ab"%string).
Proof. reflexivity. Qed.

Example strtol_hexadecimal : libc.strtol "0x2b000181" 16 = (0x2b000181, ""%string).
Proof. reflexivity. Qed.

Example strtol_nothing_converted : libc.strtol " x1" 10 = (0, " x1"%string).
Proof. reflexivity. Qed.

Example strtol_saturates :
  libc.strtol "99999999999999999999" 10 = (LONG_MAX, ""%string).
Proof. reflexivity. Qed.

Example atoi_truncates : libc.atoi "4294967297" = 1.
Proof. reflexivity. Qed.

Example parse_int32_flag :
  benchmark.ParseInt32Flag "--threads=12" "threads" = Some 12
  /\ benchmark.ParseInt32Flag "--threads=1x" "threads" = None
  /\ benchmark.ParseInt32Flag "--threads=4294967296" "threads" = None
  /\ benchmark.ParseInt32Flag "--threads" "threads" = None.
Proof. repeat split. Qed.

Example parse_bool_flag :
  benchmark.ParseBoolFlag "--no_hw" "no_hw" = Some true
  /\ benchmark.ParseBoolFlag "--no_hw=false" "no_hw" = Some false
  /\ benchmark.ParseBoolFlag "--no_hw=0" "no_hw" = Some false
  /\ benchmark.ParseBoolFlag "--no_hwx" "no_hw" = None.
Proof. repeat split. Qed.

Example shift_left_in_place :
  cmd.shift_left 2 1 ["a"; "b"; "c"; "d"; "e"]%string
  = ["a"; "c"; "d"; "d"; "e"]%string.
Proof. reflexivity. Qed.

Example parse_local_mixed :
  option_map
    (fun st => (cmd.remaining st, cmd.FLAGS_threads (cmd.FLAGS st),
                cmd.help_printed st))
    (@cmd.parse_local integers_only
       ["prog"; "--threads=2"; "--help"; "--threads=7"; "--threads=x"]%string
       (@cmd.default_flags integers_only))
  = Some (["prog"; "--help"; "--threads=x"]%string, 7, 1%nat).
Proof. reflexivity. Qed.

Example split_line_cases :
  sysinfo.split_line "model name  : Xeon : Gold " = Some ("model name", "Xeon : Gold")%string
  /\ sysinfo.split_line "" = None
  /\ sysinfo.split_line "no delimiter" = None.
Proof. repeat split. Qed.

(** ** Device count *)

Lemma wrap_int32_small z : - 2 ^ 31 <= z <= INT_MAX -> wrap_int32 z = z.
Proof.
  unfold wrap_int32, INT_MAX. intros Hz.
  rewrite Z.mod_small by lia. lia.
Qed.

Lemma wrap_uint64_small z : 0 <= z <= UINT64_MAX -> wrap_uint64 z = z.
Proof.
  unfold wrap_uint64, UINT64_MAX. intros Hz. apply Z.mod_small. lia.
Qed.

Lemma wrap_uint32_small z : 0 <= z <= UINT32_MAX -> wrap_uint32 z = z.
Proof.
  unfold wrap_uint32, UINT32_MAX. intros Hz. apply Z.mod_small. lia.
Qed.

Lemma numa_unknown_value : details.numa_unknown = UINT64_MAX.
Proof. reflexivity. Qed.

Lemma devices_at_cons l d disp :
  devices_at l (d :: disp) =
  (if d =? l then 1 else 0) + devices_at l disp.
Proof.
  unfold devices_at. cbn [count_occ].
  destruct (Z.eq_dec d l) as [->|Hne].
  - rewrite Z.eqb_refl. lia.
  - apply Z.eqb_neq in Hne. rewrite Hne. lia.
Qed.

Lemma devices_at_nonneg l disp : 0 <= devices_at l disp.
Proof. unfold devices_at. lia. Qed.

Lemma devices_at_le_length l disp :
  devices_at l disp <= Z.of_nat (length disp).
Proof.
  induction disp as [|d disp IH]; [unfold devices_at; simpl; lia|].
  rewrite devices_at_cons. cbn [length]. destruct (d =? l); lia.
Qed.

(** The loop body adds one for a device on the node or of unknown
    locality, and nothing otherwise. *)
Lemma count_device_step numa counter d :
  0 <= numa <= UINT32_MAX -> 0 <= counter < INT_MAX ->
  details.count_device numa counter d =
  counter + (if d =? numa then 1 else 0)
          + (if d =? details.numa_unknown then 1 else 0).
Proof.
  intros Hn Hc. unfold details.count_device.
  rewrite wrap_uint64_small by (unfold UINT32_MAX, UINT64_MAX in *; lia).
  rewrite wrap_int32_small by (unfold INT_MAX in *; lia).
  assert (Hu : numa <> details.numa_unknown)
    by (rewrite numa_unknown_value; unfold UINT32_MAX, UINT64_MAX in *; lia).
  destruct (d =? numa) eqn:E1.
  - apply Z.eqb_eq in E1. subst d.
    apply Z.eqb_neq in Hu. rewrite Hu. lia.
  - cbn [negb andb]. destruct (d =? details.numa_unknown); lia.
Qed.

Lemma fold_count_device numa disp : forall counter,
  0 <= numa <= UINT32_MAX ->
  0 <= counter -> counter + Z.of_nat (length disp) <= INT_MAX ->
  fold_left (details.count_device numa) disp counter =
  counter + devices_at numa disp + devices_at details.numa_unknown disp.
Proof.
  induction disp as [|d disp IH]; intros counter Hn Hc Hlen.
  - unfold devices_at. simpl. lia.
  - cbn [fold_left length] in *.
    rewrite count_device_step by lia.
    rewrite IH, !devices_at_cons; try lia.
    + destruct (d =? numa), (d =? details.numa_unknown); lia.
    + destruct (d =? numa) eqn:E1, (d =? details.numa_unknown) eqn:E2; try lia.
      apply Z.eqb_eq in E1, E2. subst.
      rewrite numa_unknown_value in Hn.
      unfold UINT32_MAX, UINT64_MAX in Hn. lia.
Qed.

(** For every node that fits the 32-bit argument the count is the devices
    on the node plus the devices of unknown locality. *)
Lemma get_num_devices_count disp numa :
  0 <= numa <= UINT32_MAX -> Z.of_nat (length disp) <= INT_MAX ->
  details.get_num_devices disp numa =
  devices_at numa disp + devices_at details.numa_unknown disp.
Proof.
  intros Hn Hlen. unfold details.get_num_devices.
  rewrite fold_count_device; lia.
Qed.

(** C2: for a concrete node (any 32-bit value but the all-ones one) and
    any device list short enough for the [int] counter,
    [get_num_devices] returns the number of devices whose locality is the
    node plus the number whose locality is the unknown sentinel; on the
    localities 0, 0, 1, unknown, unknown it returns 4 for node 0 and 3 for
    node 1.  The function is a pure function of the device list and the
    node: it changes nothing. *)
Theorem get_num_devices_concrete_node disp numa :
  0 <= numa < UINT32_MAX -> Z.of_nat (length disp) <= INT_MAX ->
  details.get_num_devices disp numa =
    devices_at numa disp + devices_at details.numa_unknown disp
  /\ details.get_num_devices example_devices 0 = 4
  /\ details.get_num_devices example_devices 1 = 3.
Proof.
  intros Hn Hlen. split; [|split].
  - apply get_num_devices_count; lia.
  - reflexivity.
  - reflexivity.
Qed.

Lemma get_num_devices_concrete_node_witness :
  details.get_num_devices [2; details.numa_unknown; 7; 2] 2 =
    devices_at 2 [2; details.numa_unknown; 7; 2]
    + devices_at details.numa_unknown [2; details.numa_unknown; 7; 2]
  /\ details.get_num_devices example_devices 0 = 4
  /\ details.get_num_devices example_devices 1 = 3.
Proof.
  apply (get_num_devices_concrete_node [2; details.numa_unknown; 7; 2] 2).
  - unfold UINT32_MAX. lia.
  - unfold INT_MAX. simpl. lia.
Defined.

Lemma devices_at_absent l disp :
  Forall (fun d => d <> l) disp -> devices_at l disp = 0.
Proof.
  induction 1 as [|d disp Hd _ IH]; [reflexivity|].
  rewrite devices_at_cons, IH. apply Z.eqb_neq in Hd. rewrite Hd. lia.
Qed.

(** C10: called with the 32-bit all-ones value as the node,
    [get_num_devices] returns the number of devices whose locality is the
    64-bit unknown sentinel, no device reporting the zero-extended 32-bit
    all-ones value as its locality (the driver reports -1 for an unknown
    node, which is all ones on 64 bits): for a device of unknown locality
    the first comparison is false, the argument being zero-extended, and
    the second branch counts it. *)
Theorem get_num_devices_sentinel_node disp :
  Forall (fun d => d <> UINT32_MAX) disp ->
  Z.of_nat (length disp) <= INT_MAX ->
  details.get_num_devices disp UINT32_MAX =
    devices_at details.numa_unknown disp
  /\ (details.numa_unknown =? wrap_uint64 UINT32_MAX) = false
  /\ forall counter, 0 <= counter < INT_MAX ->
       details.count_device UINT32_MAX counter details.numa_unknown =
       counter + 1.
Proof.
  intros Hd Hlen. split; [|split].
  - rewrite get_num_devices_count by (unfold UINT32_MAX; lia).
    rewrite devices_at_absent by assumption. lia.
  - reflexivity.
  - intros counter Hc. rewrite count_device_step by (unfold UINT32_MAX; lia).
    replace (details.numa_unknown =? UINT32_MAX) with false by reflexivity.
    rewrite Z.eqb_refl. lia.
Qed.

Lemma get_num_devices_sentinel_node_witness :
  details.get_num_devices [0; details.numa_unknown; 1; details.numa_unknown]
    UINT32_MAX =
    devices_at details.numa_unknown
      [0; details.numa_unknown; 1; details.numa_unknown]
  /\ (details.numa_unknown =? wrap_uint64 UINT32_MAX) = false
  /\ forall counter, 0 <= counter < INT_MAX ->
       details.count_device UINT32_MAX counter details.numa_unknown =
       counter + 1.
Proof.
  apply (get_num_devices_sentinel_node
           [0; details.numa_unknown; 1; details.numa_unknown]).
  - repeat constructor; vm_compute; discriminate.
  - unfold INT_MAX. simpl. lia.
Defined.

(** ** Registry *)

Lemma drain_invoked {W} (registry : details.registry_t W) (w : W) :
  snd (details.drain registry w) = registry.
Proof.
  revert w. induction registry as [|reg rest IH]; intros w; [reflexivity|].
  cbn [details.drain]. specialize (IH (reg w)).
  destruct (details.drain rest (reg w)) as [w' invoked]. cbn in *.
  now rewrite IH.
Qed.

Lemma drain_state {W} (registry : details.registry_t W) (w : W) :
  fst (details.drain registry w) = fold_left (fun w reg => reg w) registry w.
Proof.
  revert w. induction registry as [|reg rest IH]; intros w; [reflexivity|].
  cbn [details.drain fold_left]. specialize (IH (reg w)).
  destruct (details.drain rest (reg w)) as [w' invoked]. cbn in *.
  exact IH.
Qed.

Lemma register_all {W} (callbacks : list (W -> W)) (reg : details.registry_t W) :
  fold_left details.register callbacks reg = reg ++ callbacks.
Proof.
  revert reg. induction callbacks as [|cb cbs IH]; intros reg; cbn [fold_left].
  - now rewrite app_nil_r.
  - rewrite IH. unfold details.register. now rewrite <- app_assoc.
Qed.

(** C9: after the callbacks [callbacks] have been registered, in that
    order, in an empty registry, one drain invokes exactly these
    callbacks, each once and in registration order, and leaves the state
    they produce in turn; the drain only reads the registry, so a second
    drain of the same registry invokes the same callbacks once more, on
    the state the first drain left. *)
Theorem drain_registry_in_order {W} (callbacks : list (W -> W)) (w : W) :
  let registry :=
    details.get_registry (fold_left details.register callbacks []) in
  let apply_all := fold_left (fun w reg => reg w) callbacks in
  registry = callbacks
  /\ length (snd (details.drain registry w)) = length callbacks
  /\ details.drain registry w = (apply_all w, callbacks)
  /\ details.drain registry (fst (details.drain registry w)) =
     (apply_all (apply_all w), callbacks).
Proof.
  intros registry apply_all.
  assert (Hreg : registry = callbacks)
    by (unfold registry, details.get_registry; now rewrite register_all).
  assert (Hdrain : forall w0, details.drain registry w0 = (apply_all w0, callbacks)).
  { intros w0. rewrite Hreg.
    rewrite (surjective_pairing (details.drain callbacks w0)).
    now rewrite drain_invoked, drain_state. }
  repeat split.
  - exact Hreg.
  - now rewrite Hdrain.
  - apply Hdrain.
  - now rewrite !Hdrain.
Qed.

(** ** Hardware readiness check *)

#[local] Arguments details.failed : simpl never.
#[local] Arguments succeeded : simpl never.

(** The test [init_hw] makes after each call, [status != QPL_STS_OK],
    fails exactly on the replies whose status is [QPL_STS_OK]. *)
Lemma succeeded_failed cr : succeeded cr = negb (details.failed (snd cr)).
Proof.
  unfold succeeded, details.failed. now rewrite negb_involutive.
Qed.

Lemma succeeded_status c r :
  succeeded (c, r) = false <-> details.status r <> details.QPL_STS_OK.
Proof. unfold succeeded. cbn [snd]. apply Z.eqb_neq. Qed.

Lemma all_succeeded_status calls :
  (forall c r, In (c, r) calls -> details.status r = details.QPL_STS_OK)
  <-> forallb succeeded calls = true.
Proof.
  rewrite forallb_forall. split.
  - intros H [c r] Hin. unfold succeeded. cbn [snd].
    apply Z.eqb_eq. now apply (H c).
  - intros H c r Hin. apply Z.eqb_eq. exact (H (c, r) Hin).
Qed.

Ltac status_tests := cbn [forallb]; rewrite ?succeeded_failed; cbn [fst snd].

(** One step of [init_hw]: ask the library, then split on the status. *)
Ltac qpl_step lib c hw r hw' E :=
  destruct (lib c hw) as [r hw'] eqn:?;
  destruct (details.failed r) eqn:E.

(** Every run of [init_hw], by cases on the five replies. *)
Lemma init_hw_run {HW}
    (lib : details.qpl_call -> HW -> details.reply * HW) (hw : HW) :
  let '(res, _, calls) := details.run lib details.init_hw hw in
  is_ok res = forallb succeeded calls
  /\ (exists n, map (fun cr => details.entry_of (fst cr)) calls
                = firstn n handshake)
  /\ match res with
     | Ok b =>
         b = true
         /\ (exists size,
              map fst calls =
              [details.qpl_get_job_size details.qpl_path_hardware;
               details.qpl_init_job details.qpl_path_hardware size;
               details.qpl_submit_job crc_job; details.qpl_wait_job crc_job;
               details.qpl_fini_job crc_job])
         /\ details.op crc_job = details.qpl_op_crc64
         /\ details.available_in crc_job = 4
         /\ length (details.next_in_ptr crc_job) = 4%nat
     | Throw what =>
         exists before c r,
           calls = before ++ [(c, r)]
           /\ forallb succeeded before = true
           /\ succeeded (c, r) = false
           /\ what = String.append "hw init failed in "
                       (details.entry_name (details.entry_of c))
     end.
Proof.
  unfold details.init_hw. cbn [details.run].
  set (c1 := details.qpl_get_job_size details.qpl_path_hardware).
  qpl_step lib c1 hw r1 hw1 E1.
  { cbn. status_tests. cbn [fst snd]. rewrite E1.
    split; [reflexivity|]. split; [now exists 1%nat|].
    exists [], c1, r1. status_tests. cbn [fst snd]. now rewrite E1. }
  cbn [details.run].
  set (c2 := details.qpl_init_job details.qpl_path_hardware (details.size_out r1)).
  qpl_step lib c2 hw1 r2 hw2 E2.
  { cbn. status_tests. cbn [fst snd]. rewrite E1, E2.
    split; [reflexivity|]. split; [now exists 2%nat|].
    exists [(c1, r1)], c2, r2. status_tests. cbn [forallb fst snd].
    rewrite E1, E2. repeat split. }
  cbn [details.run]. fold crc_job.
  set (c3 := details.qpl_submit_job crc_job).
  qpl_step lib c3 hw2 r3 hw3 E3.
  { cbn. status_tests. cbn [fst snd]. rewrite E1, E2, E3.
    split; [reflexivity|]. split; [now exists 3%nat|].
    exists [(c1, r1); (c2, r2)], c3, r3. status_tests.
    cbn [forallb fst snd]. rewrite E1, E2, E3. repeat split. }
  cbn [details.run].
  set (c4 := details.qpl_wait_job crc_job).
  qpl_step lib c4 hw3 r4 hw4 E4.
  { cbn. status_tests. cbn [fst snd]. rewrite E1, E2, E3, E4.
    split; [reflexivity|]. split; [now exists 4%nat|].
    exists [(c1, r1); (c2, r2); (c3, r3)], c4, r4. status_tests.
    cbn [forallb fst snd]. rewrite E1, E2, E3, E4. repeat split. }
  cbn [details.run].
  set (c5 := details.qpl_fini_job crc_job).
  qpl_step lib c5 hw4 r5 hw5 E5.
  { cbn. status_tests. cbn [fst snd]. rewrite E1, E2, E3, E4, E5.
    split; [reflexivity|]. split; [now exists 5%nat|].
    exists [(c1, r1); (c2, r2); (c3, r3); (c4, r4)], c5, r5. status_tests.
    cbn [forallb fst snd]. rewrite E1, E2, E3, E4, E5. repeat split. }
  cbn. status_tests. cbn [fst snd]. rewrite E1, E2, E3, E4, E5.
  split; [reflexivity|]. split; [now exists 5%nat|].
  repeat split. now exists (details.size_out r1).
Qed.

Ltac distinct_entries :=
  cbn; rewrite ?firstn_nil;
  repeat (apply List.NoDup_cons; [cbn; intuition discriminate|]);
  apply List.NoDup_nil.

Lemma handshake_prefix_NoDup n : List.NoDup (firstn n handshake).
Proof.
  do 5 (destruct n as [|n]; [distinct_entries|]). distinct_entries.
Qed.

(** C6: whatever the library answers, [init_hw] ends in an exception if
    and only if one of the calls it made came back with a [status] field
    different from [QPL_STS_OK], and returns [true] if and only if every
    call it made came back with [status = QPL_STS_OK]; the calls are an
    initial part of the sequence job size, init, submit, wait, finalize,
    so no step is made twice (no retry) and none after a failure; the
    exception is raised by the failing call, which is the last one made,
    and names it (no downgrade); and when no call fails the five calls
    were made, the submitted job being a CRC-64 over the four bytes of an
    [int]. *)
Theorem init_hw_fails_iff_a_step_fails {HW}
    (lib : details.qpl_call -> HW -> details.reply * HW) (hw : HW) :
  let '(res, _, calls) := details.run lib details.init_hw hw in
  ((exists what, res = Throw what)
   <-> exists c r, In (c, r) calls
                   /\ details.status r <> details.QPL_STS_OK)
  /\ (res = Ok true
      <-> forall c r, In (c, r) calls
                      -> details.status r = details.QPL_STS_OK)
  /\ List.NoDup (map (fun cr => details.entry_of (fst cr)) calls)
  /\ (exists n, map (fun cr => details.entry_of (fst cr)) calls
                = firstn n handshake)
  /\ match res with
     | Ok _ =>
         (exists size,
            map fst calls =
            [details.qpl_get_job_size details.qpl_path_hardware;
             details.qpl_init_job details.qpl_path_hardware size;
             details.qpl_submit_job crc_job; details.qpl_wait_job crc_job;
             details.qpl_fini_job crc_job])
         /\ details.op crc_job = details.qpl_op_crc64
         /\ details.available_in crc_job = 4
         /\ length (details.next_in_ptr crc_job) = 4%nat
     | Throw what =>
         exists before c r,
           calls = before ++ [(c, r)]
           /\ (forall c' r', In (c', r') before
                             -> details.status r' = details.QPL_STS_OK)
           /\ details.status r <> details.QPL_STS_OK
           /\ what = String.append "hw init failed in "
                       (details.entry_name (details.entry_of c))
     end.
Proof.
  pose proof (init_hw_run lib hw) as Hrun.
  destruct (details.run lib details.init_hw hw) as [[res hw1] calls].
  destruct Hrun as (Hok & [n Hn] & Hres).
  split; [|split; [|split; [|split]]].
  - split.
    + intros [what ->].
      destruct Hres as (before & c & r & -> & _ & Hfail & _).
      exists c, r. split; [|exact (proj1 (succeeded_status c r) Hfail)].
      apply in_or_app. right. now left.
    + intros (c & r & Hin & Hfail).
      destruct res as [b|what]; [|now exists what].
      cbn [is_ok] in Hok. symmetry in Hok.
      rewrite forallb_forall in Hok.
      apply (proj2 (succeeded_status c r)) in Hfail.
      rewrite (Hok (c, r) Hin) in Hfail. discriminate Hfail.
  - rewrite all_succeeded_status, <- Hok.
    destruct res as [b|what]; cbn [is_ok].
    + destruct Hres as (-> & _). tauto.
    + split; discriminate.
  - rewrite Hn. apply handshake_prefix_NoDup.
  - now exists n.
  - destruct res as [b|what].
    + destruct Hres as (_ & Hcalls & Hjob). now split.
    + destruct Hres as (before & c & r & Hc & Hb & Hf & Hw).
      exists before, c, r. split; [exact Hc|].
      split; [exact (proj2 (all_succeeded_status before) Hb)|].
      split; [exact (proj1 (succeeded_status c r) Hf)|exact Hw].
Qed.


(** ** System information: built once *)

(** Once the flag is set and the guard free, a call returns the stored
    snapshot and changes nothing, whatever the machine looks like now. *)
Lemma get_sys_info_built m s :
  sysinfo.is_setup s = true -> sysinfo.guard_locked s = false ->
  sysinfo.get_sys_info m s = Some (Ok (sysinfo.info s), s).
Proof.
  intros Hset Hfree. unfold sysinfo.get_sys_info.
  now rewrite Hfree, Hset.
Qed.

Lemma sys_info_calls_built ms : forall s,
  sysinfo.is_setup s = true -> sysinfo.guard_locked s = false ->
  sys_info_calls ms s = Some (repeat (Ok (sysinfo.info s)) (length ms), s).
Proof.
  induction ms as [|m ms IH]; intros s Hset Hfree; [reflexivity|].
  cbn [sys_info_calls length repeat].
  rewrite get_sys_info_built by assumption.
  now rewrite IH.
Qed.

(** When the descriptor table cannot be opened the first call throws, the
    flag stays clear and the guard stays locked. *)
Lemma get_sys_info_no_cpuinfo m :
  sysinfo.proc_cpuinfo m = None ->
  exists s1,
    sysinfo.get_sys_info m sysinfo.initial
      = Some (Throw "Failed to open /proc/cpuinfo", s1)
    /\ sysinfo.is_setup s1 = false /\ sysinfo.guard_locked s1 = true.
Proof.
  intros Hnone. unfold sysinfo.get_sys_info. cbn. rewrite Hnone.
  eexists. repeat split.
Qed.

(** The first call returns what [first_build] describes. *)
Lemma get_sys_info_first_build m lines :
  sysinfo.proc_cpuinfo m = Some lines ->
  exists s1,
    sysinfo.get_sys_info m sysinfo.initial = Some (Ok (first_build m lines), s1).
Proof.
  intros Hopen. unfold sysinfo.get_sys_info. cbn. rewrite Hopen.
  eexists. reflexivity.
Qed.

(** ** System information: the descriptor table *)


Lemma read_lines_table lines : forall info,
  fold_left sysinfo.read_line lines info = scan (table lines) info.
Proof.
  induction lines as [|line lines IH]; intros info; [reflexivity|].
  cbn [fold_left]. rewrite IH. unfold sysinfo.read_line, table.
  cbn [omap list_omap]. fold (omap sysinfo.split_line lines).
  destruct (sysinfo.split_line line) as [[k v]|]; reflexivity.
Qed.

Ltac eval_key_tests :=
  repeat match goal with
  | |- context [str_eqb ?a ?b] =>
      let r := eval vm_compute in (str_eqb a b) in
      lazymatch r with
      | true => change (str_eqb a b) with true
      | false => change (str_eqb a b) with false
      end
  end.

Ltac by_guard :=
  repeat match goal with
  | |- context [if ?b then _ else _] => destruct b eqn:?
  end;
  cbn [andb negb]; try reflexivity; try congruence.

Ltac by_key :=
  repeat match goal with
  | |- context [str_eqb ?k ?lit] =>
      is_var k;
      let E := fresh "E" in
      destruct (str_eqb k lit) eqn:E;
      [ apply String.eqb_eq in E; subst k; eval_key_tests | ]
  end;
  cbn [andb negb orb];
  rewrite ?andb_false_r, ?andb_true_r; try reflexivity; by_guard.

Ltac field_of_descriptor info :=
  destruct info; unfold sysinfo.descriptor;
  cbn [sysinfo.cpu_stepping sysinfo.cpu_model sysinfo.cpu_microcode
       sysinfo.cpu_model_name sysinfo.cpu_physical_per_socket
       sysinfo.cpu_logical_cores sysinfo.cpu_sockets];
  by_key.

Lemma descriptor_stepping info k v :
  sysinfo.cpu_stepping (sysinfo.descriptor info k v) =
  if (sysinfo.cpu_stepping info =? 0) && str_eqb k "stepping"
  then as_decimal v else sysinfo.cpu_stepping info.
Proof. field_of_descriptor info. Qed.

Lemma descriptor_model info k v :
  sysinfo.cpu_model (sysinfo.descriptor info k v) =
  if (sysinfo.cpu_model info =? 0) && str_eqb k "model"
  then as_decimal v else sysinfo.cpu_model info.
Proof. field_of_descriptor info. Qed.

Lemma descriptor_microcode info k v :
  sysinfo.cpu_microcode (sysinfo.descriptor info k v) =
  if (sysinfo.cpu_microcode info =? 0) && str_eqb k "microcode"
  then as_hex v else sysinfo.cpu_microcode info.
Proof. field_of_descriptor info. Qed.

Lemma descriptor_model_name info k v :
  sysinfo.cpu_model_name (sysinfo.descriptor info k v) =
  if (String.length (sysinfo.cpu_model_name info) =? 0)%nat
     && str_eqb k "model name"
  then v else sysinfo.cpu_model_name info.
Proof. field_of_descriptor info. Qed.

Lemma descriptor_cores info k v :
  sysinfo.cpu_physical_per_socket (sysinfo.descriptor info k v) =
  if (sysinfo.cpu_physical_per_socket info =? 0) && str_eqb k "cpu cores"
  then Z.max (sysinfo.cpu_physical_per_socket info) (as_decimal v)
  else sysinfo.cpu_physical_per_socket info.
Proof. field_of_descriptor info. Qed.

Lemma descriptor_logical info k v :
  sysinfo.cpu_logical_cores (sysinfo.descriptor info k v) =
  if str_eqb k "processor"
  then wrap_uint32 (sysinfo.cpu_logical_cores info + 1)
  else sysinfo.cpu_logical_cores info.
Proof. field_of_descriptor info. Qed.

Lemma descriptor_sockets info k v :
  sysinfo.cpu_sockets (sysinfo.descriptor info k v) =
  if str_eqb k "physical id"
  then Z.max (sysinfo.cpu_sockets info) (socket_count v)
  else sysinfo.cpu_sockets info.
Proof. field_of_descriptor info. Qed.

Lemma as_decimal_nonneg v : 0 <= as_decimal v.
Proof. unfold as_decimal, wrap_uint32. apply Z.mod_pos_bound. lia. Qed.

Lemma descriptor_cores_first info k v :
  sysinfo.cpu_physical_per_socket (sysinfo.descriptor info k v) =
  if (sysinfo.cpu_physical_per_socket info =? 0) && str_eqb k "cpu cores"
  then as_decimal v else sysinfo.cpu_physical_per_socket info.
Proof.
  rewrite descriptor_cores.
  destruct (sysinfo.cpu_physical_per_socket info =? 0) eqn:E; [|reflexivity].
  apply Z.eqb_eq in E. rewrite E.
  destruct (str_eqb k "cpu cores"); [|reflexivity].
  cbn [andb]. apply Z.max_r, as_decimal_nonneg.
Qed.

Lemma scan_cons k v pairs info :
  scan ((k, v) :: pairs) info = scan pairs (sysinfo.descriptor info k v).
Proof. reflexivity. Qed.

Section CapturedOnce.
(** A numeric field [field] that the chain assigns from key [key],
    read by [conv], only while the field is zero. *)
Variable field : sysinfo.extended_info_t -> Z.
Variable conv : string -> Z.
Variable key : string.
Hypothesis assigned_while_zero : forall info k v,
  field (sysinfo.descriptor info k v) =
  if (field info =? 0) && str_eqb k key then conv v else field info.

Lemma scan_first_nonzero pairs : forall info,
  field (scan pairs info) =
  if field info =? 0 then first_nonzero conv key pairs else field info.
Proof using assigned_while_zero.
  induction pairs as [|[k v] pairs IH]; intros info.
  - cbn. destruct (field info =? 0) eqn:E; [|reflexivity].
    now apply Z.eqb_eq in E.
  - rewrite scan_cons, IH, assigned_while_zero. cbn [first_nonzero].
    destruct (field info =? 0) eqn:E0; cbn [andb].
    + destruct (str_eqb k key); cbn [andb]; [|now rewrite E0].
      destruct (conv v =? 0); reflexivity.
    + now rewrite E0.
Qed.
End CapturedOnce.

Lemma scan_model_name pairs : forall info,
  sysinfo.cpu_model_name (scan pairs info) =
  if (String.length (sysinfo.cpu_model_name info) =? 0)%nat
  then first_nonempty "model name" pairs else sysinfo.cpu_model_name info.
Proof.
  induction pairs as [|[k v] pairs IH]; intros info.
  - cbn. destruct (sysinfo.cpu_model_name info); reflexivity.
  - rewrite scan_cons, IH, descriptor_model_name. cbn [first_nonempty].
    destruct (String.length (sysinfo.cpu_model_name info) =? 0)%nat eqn:E0;
      cbn [andb].
    + destruct (str_eqb k "model name"); cbn [andb]; [|now rewrite E0].
      destruct (String.length v =? 0)%nat; reflexivity.
    + now rewrite E0.
Qed.

Lemma wrap_uint32_idem z : wrap_uint32 (wrap_uint32 z) = wrap_uint32 z.
Proof. unfold wrap_uint32. apply Z.mod_mod. lia. Qed.

Lemma scan_logical_cores pairs : forall info,
  sysinfo.cpu_logical_cores info = wrap_uint32 (sysinfo.cpu_logical_cores info) ->
  sysinfo.cpu_logical_cores (scan pairs info) =
  wrap_uint32 (sysinfo.cpu_logical_cores info
               + Z.of_nat (length (values_of "processor" pairs))).
Proof.
  induction pairs as [|[k v] pairs IH]; intros info Hrange.
  - cbn. now rewrite Z.add_0_r.
  - rewrite scan_cons, IH.
    + rewrite descriptor_logical. cbn [values_of].
      destruct (str_eqb k "processor"); [|reflexivity].
      cbn [length]. unfold wrap_uint32.
      rewrite Zplus_mod_idemp_l. f_equal. lia.
    + rewrite descriptor_logical.
      destruct (str_eqb k "processor"); [|assumption].
      now rewrite wrap_uint32_idem.
Qed.

Lemma scan_sockets pairs : forall info,
  sysinfo.cpu_sockets (scan pairs info) =
  fold_left Z.max (map socket_count (values_of "physical id" pairs))
    (sysinfo.cpu_sockets info).
Proof.
  induction pairs as [|[k v] pairs IH]; intros info; [reflexivity|].
  rewrite scan_cons, IH, descriptor_sockets. cbn [values_of].
  destruct (str_eqb k "physical id"); reflexivity.
Qed.

(** A non-negative index stands for that many sockets plus one. *)
Lemma socket_count_index v :
  0 <= libc.atoi v -> socket_count v = libc.atoi v + 1.
Proof.
  intros Hpos. unfold socket_count.
  assert (Hmax : libc.atoi v <= INT_MAX).
  { unfold libc.atoi, wrap_int32, INT_MAX.
    pose proof (Z.mod_pos_bound (fst (libc.strtol v 10) + 2 ^ 31) (2 ^ 32)).
    lia. }
  unfold INT_MAX in Hmax.
  rewrite (wrap_uint32_small (libc.atoi v)) by (unfold UINT32_MAX; lia).
  apply wrap_uint32_small. unfold UINT32_MAX. lia.
Qed.

(** The first occurrence of a key is what is captured whenever its value
    is not zero. *)
Lemma first_nonzero_first_occurrence conv k pairs v :
  first_occurrence k pairs = Some v -> conv v <> 0 ->
  first_nonzero conv k pairs = conv v.
Proof.
  induction pairs as [|[k' v'] pairs IH]; cbn; [discriminate|].
  destruct (str_eqb k' k); cbn [andb]; [|exact IH].
  intros [= ->] Hnz. apply Z.eqb_neq in Hnz. now rewrite Hnz.
Qed.

(** The later steps of the build keep what the table gave. *)
Lemma build_keeps_table m lines info :
  let scanned := scan (table lines) info in
  let built := sysinfo.build m lines info in
  sysinfo.cpu_model_name built = sysinfo.cpu_model_name scanned
  /\ sysinfo.cpu_model built = sysinfo.cpu_model scanned
  /\ sysinfo.cpu_microcode built = sysinfo.cpu_microcode scanned
  /\ sysinfo.cpu_stepping built = sysinfo.cpu_stepping scanned
  /\ sysinfo.cpu_physical_per_socket built
     = sysinfo.cpu_physical_per_socket scanned
  /\ sysinfo.cpu_logical_cores built = sysinfo.cpu_logical_cores scanned
  /\ sysinfo.cpu_sockets built = sysinfo.cpu_sockets scanned.
Proof.
  cbv zeta. unfold sysinfo.build. rewrite read_lines_table.
  destruct (scan (table lines) info). repeat split.
Qed.

(** C5: on a machine whose descriptor table opens with the lines
    [lines], the first call of [get_sys_info] in a process performs the
    build: it returns the snapshot built from the machine's [uname] names,
    the lines and the devices ([first_build m lines], whose logical cores
    are the [processor] lines of the table and whose sockets the largest
    [physical id] plus one), stores it, prints one summary of it and sets
    the flag; every later call, in any number and whatever the machine
    reports by then, returns that same snapshot and leaves the statics as
    they are: nothing is built or printed again. *)
Theorem get_sys_info_builds_once m lines :
  sysinfo.proc_cpuinfo m = Some lines ->
  exists s1,
    sysinfo.get_sys_info m sysinfo.initial
      = Some (Ok (first_build m lines), s1)
    /\ sysinfo.is_setup s1 = true
    /\ sysinfo.guard_locked s1 = false
    /\ sysinfo.info s1 = first_build m lines
    /\ sysinfo.printed s1 = [first_build m lines]
    /\ sysinfo.cpu_logical_cores (first_build m lines)
       = wrap_uint32 (Z.of_nat (length (values_of "processor" (table lines))))
    /\ sysinfo.cpu_sockets (first_build m lines)
       = fold_left Z.max
           (map socket_count (values_of "physical id" (table lines))) 0
    /\ forall later : list sysinfo.machine,
         sys_info_calls later s1
         = Some (repeat (Ok (first_build m lines)) (length later), s1).
Proof.
  intros Hopen. unfold sysinfo.get_sys_info. cbn. rewrite Hopen.
  fold (first_build m lines).
  eexists. split; [reflexivity|].
  cbn [sysinfo.is_setup sysinfo.guard_locked sysinfo.info sysinfo.printed].
  do 4 (split; [reflexivity|]).
  destruct (build_keeps_table m lines
              (sysinfo.set_identity (sysinfo.nodename m) (sysinfo.release m)
                 sysinfo.empty_info))
    as (_ & _ & _ & _ & _ & Hlogical & Hsockets).
  fold (first_build m lines) in Hlogical, Hsockets.
  split; [rewrite Hlogical; now apply scan_logical_cores|].
  split; [rewrite Hsockets; apply scan_sockets|].
  intros later. now rewrite sys_info_calls_built.
Qed.

Lemma get_sys_info_builds_once_witness :
  exists s1,
    sysinfo.get_sys_info (machine_with stepping_twice) sysinfo.initial
      = Some (Ok (first_build (machine_with stepping_twice) stepping_twice),
              s1)
    /\ sysinfo.is_setup s1 = true
    /\ sysinfo.guard_locked s1 = false
    /\ sysinfo.info s1
       = first_build (machine_with stepping_twice) stepping_twice
    /\ sysinfo.printed s1
       = [first_build (machine_with stepping_twice) stepping_twice]
    /\ sysinfo.cpu_logical_cores
         (first_build (machine_with stepping_twice) stepping_twice)
       = wrap_uint32
           (Z.of_nat (length (values_of "processor" (table stepping_twice))))
    /\ sysinfo.cpu_sockets
         (first_build (machine_with stepping_twice) stepping_twice)
       = fold_left Z.max
           (map socket_count
              (values_of "physical id" (table stepping_twice))) 0
    /\ forall later : list sysinfo.machine,
         sys_info_calls later s1
         = Some (repeat
                   (Ok (first_build (machine_with stepping_twice)
                          stepping_twice))
                   (length later), s1).
Proof.
  apply (get_sys_info_builds_once (machine_with stepping_twice) stepping_twice).
  reflexivity.
Defined.

(** C8, as the build has it: over the key and value pairs of the table,
    [model name] is captured from the first pair whose value is not
    empty, and [model], [microcode] (read as hexadecimal), [stepping] and
    [cpu cores] from the first pair whose value does not read as zero;
    once captured, later pairs with the key are ignored, and so is a pair
    whose value is empty or reads as zero.  Each [processor] pair adds one
    to the logical cores, and the socket count is the largest
    index-plus-one over the [physical id] pairs.  A first occurrence that
    is not zero is therefore the value captured. *)
Theorem descriptor_table_capture m lines :
  let snapshot := first_build m lines in
  let pairs := table lines in
  sysinfo.cpu_model_name snapshot = first_nonempty "model name" pairs
  /\ sysinfo.cpu_model snapshot = first_nonzero as_decimal "model" pairs
  /\ sysinfo.cpu_microcode snapshot = first_nonzero as_hex "microcode" pairs
  /\ sysinfo.cpu_stepping snapshot = first_nonzero as_decimal "stepping" pairs
  /\ sysinfo.cpu_physical_per_socket snapshot
     = first_nonzero as_decimal "cpu cores" pairs
  /\ sysinfo.cpu_logical_cores snapshot
     = wrap_uint32 (Z.of_nat (length (values_of "processor" pairs)))
  /\ sysinfo.cpu_sockets snapshot
     = fold_left Z.max (map socket_count (values_of "physical id" pairs)) 0
  /\ (forall v, 0 <= libc.atoi v -> socket_count v = libc.atoi v + 1)
  /\ (forall conv k v, first_occurrence k pairs = Some v -> conv v <> 0 ->
        first_nonzero conv k pairs = conv v).
Proof.
  cbv zeta. unfold first_build.
  destruct (build_keeps_table m lines
              (sysinfo.set_identity (sysinfo.nodename m) (sysinfo.release m)
                 sysinfo.empty_info))
    as (Hname & Hmodel & Hmicro & Hstep & Hcores & Hlogical & Hsockets).
  rewrite Hname, Hmodel, Hmicro, Hstep, Hcores, Hlogical, Hsockets.
  rewrite scan_model_name.
  rewrite (scan_first_nonzero sysinfo.cpu_model as_decimal "model"
             descriptor_model).
  rewrite (scan_first_nonzero sysinfo.cpu_microcode as_hex "microcode"
             descriptor_microcode).
  rewrite (scan_first_nonzero sysinfo.cpu_stepping as_decimal "stepping"
             descriptor_stepping).
  rewrite (scan_first_nonzero sysinfo.cpu_physical_per_socket as_decimal
             "cpu cores" descriptor_cores_first).
  rewrite scan_logical_cores by reflexivity.
  rewrite scan_sockets.
  repeat split.
  - apply socket_count_index.
  - intros conv k v. apply first_nonzero_first_occurrence.
Qed.

(** C8 as worded fails: with a first [stepping] line of value 0 and a
    second of value 5, the first occurrence reads as 0 and the snapshot
    holds 5, the later line having been taken. *)
Lemma stepping_first_occurrence_not_kept :
  first_occurrence "stepping" (table stepping_twice) = Some "0"%string
  /\ as_decimal "0" = 0
  /\ sysinfo.cpu_stepping
       (first_build (machine_with stepping_twice) stepping_twice) = 5.
Proof. repeat split. Qed.

(** ** Block size *)

Ltac ascii_cases c := destruct c as [[] [] [] [] [] [] [] []].

Lemma isspace_toupper c : libc.isspace (libc.toupper c) = libc.isspace c.
Proof. ascii_cases c; reflexivity. Qed.

Lemma toupper_space c : libc.isspace c = true -> libc.toupper c = c.
Proof. ascii_cases c; intros H; try reflexivity; discriminate H. Qed.

Lemma digit_val_toupper c :
  libc.digit_val 10 (libc.toupper c) = libc.digit_val 10 c.
Proof. ascii_cases c; reflexivity. Qed.

Lemma skip_space_upper s :
  libc.skip_space (upper s) = upper (libc.skip_space s).
Proof.
  induction s as [|c s IH]; [reflexivity|].
  cbn [upper libc.transform libc.skip_space]. rewrite isspace_toupper.
  destruct (libc.isspace c); [exact IH | reflexivity].
Qed.

Lemma skip_sign_upper s :
  libc.skip_sign (upper s) =
  (fst (libc.skip_sign s), upper (snd (libc.skip_sign s))).
Proof.
  destruct s as [|c s]; [reflexivity|].
  ascii_cases c; reflexivity.
Qed.

Lemma has_digit_upper s : libc.has_digit 10 (upper s) = libc.has_digit 10 s.
Proof.
  destruct s as [|c s]; [reflexivity|].
  cbn [upper libc.transform libc.has_digit]. now rewrite digit_val_toupper.
Qed.

Lemma digits_upper s : forall acc,
  libc.digits 10 acc (upper s) =
  (fst (libc.digits 10 acc s), upper (snd (libc.digits 10 acc s))).
Proof.
  induction s as [|c s IH]; intros acc; [reflexivity|].
  cbn [upper libc.transform libc.digits]. rewrite digit_val_toupper.
  destruct (libc.digit_val 10 c); [apply IH | reflexivity].
Qed.

Lemma strtol_upper s :
  fst (libc.strtol (upper s) 10) = fst (libc.strtol s 10).
Proof.
  unfold libc.strtol. rewrite skip_space_upper, skip_sign_upper.
  destruct (libc.skip_sign (libc.skip_space s)) as [neg s1]. cbn [fst snd].
  unfold libc.skip_0x. cbn [Z.eqb Pos.eqb].
  rewrite has_digit_upper. destruct (libc.has_digit 10 s1); [|reflexivity].
  rewrite digits_upper. destruct (libc.digits 10 0 s1). reflexivity.
Qed.

Lemma atoi_upper s : libc.atoi (upper s) = libc.atoi s.
Proof. unfold libc.atoi. now rewrite strtol_upper. Qed.

Lemma upper_is_zero s : str_eqb (upper s) "0" = str_eqb s "0".
Proof.
  destruct s as [|c [|c' s]]; [reflexivity| |]; ascii_cases c; reflexivity.
Qed.

Lemma transform_app f p q :
  libc.transform f (String.append p q)
  = String.append (libc.transform f p) (libc.transform f q).
Proof. induction p as [|c p IH]; cbn; [reflexivity | now rewrite IH]. Qed.

Lemma transform_length f s :
  String.length (libc.transform f s) = String.length s.
Proof. induction s as [|c s IH]; cbn; [reflexivity | now rewrite IH]. Qed.

Lemma append_length p q :
  String.length (String.append p q) = (String.length p + String.length q)%nat.
Proof. induction p as [|c p IH]; cbn; [reflexivity | now rewrite IH]. Qed.

Lemma drop_app p q : std.drop (String.length p) (String.append p q) = q.
Proof. induction p as [|c p IH]; cbn; [now destruct q | exact IH]. Qed.

Lemma append_assoc (p q r : string) :
  String.append (String.append p q) r = String.append p (String.append q r).
Proof. induction p as [|c p IH]; cbn; [reflexivity | now rewrite IH]. Qed.

Lemma string_snoc s :
  s <> EmptyString ->
  exists q x, s = String.append q (String x EmptyString).
Proof.
  induction s as [|c s IH]; intros Hne; [contradiction|].
  destruct s as [|c' s'].
  - now exists EmptyString, c.
  - destruct IH as (q & x & Hq); [discriminate|].
    exists (String c q), x. cbn. now rewrite <- Hq.
Qed.

Lemma find_from_ge pat s : forall idx k,
  std.find_from pat idx s = Some k -> (idx <= k)%nat.
Proof.
  induction s as [|c s IH]; intros idx k; cbn [std.find_from].
  - destruct (String.prefix pat ""); [intros [= <-]; lia | discriminate].
  - destruct (String.prefix pat (String c s)); [intros [= <-]; lia|].
    intros Hk. apply IH in Hk. lia.
Qed.

(** Searching from [pos] and asking for a hit at [pos] itself is asking
    whether the pattern stands at [pos]. *)
Lemma find_is_here s pat pos :
  (pos <= String.length s)%nat ->
  std.find_is s pat pos pos = String.prefix pat (std.drop pos s).
Proof.
  intros Hpos. unfold std.find_is, std.find.
  apply Nat.leb_le in Hpos. rewrite Hpos.
  destruct (std.drop pos s) as [|c t]; cbn [std.find_from].
  - destruct (String.prefix pat ""); [apply Nat.eqb_refl | reflexivity].
  - destruct (String.prefix pat (String c t)); [apply Nat.eqb_refl|].
    destruct (std.find_from pat (S pos) t) as [k|] eqn:Hk; [|reflexivity].
    apply find_from_ge in Hk. apply Nat.eqb_neq. lia.
Qed.

Lemma drop_app_cons p x q :
  std.drop (S (String.length p)) (String.append p (String x q)) = q.
Proof. induction p as [|c p IH]; cbn; [now destruct q | exact IH]. Qed.

Lemma block_size_mult_tail p x c :
  cmd_block.block_size_mult
    (String.append p (String x (String c EmptyString)))
  = mult_of_tail p x c.
Proof.
  unfold cmd_block.block_size_mult, mult_of_tail. cbv zeta.
  assert (Hlen : String.length (String.append p (String x (String c EmptyString)))
                 = S (S (String.length p)))
    by (rewrite append_length; cbn; lia).
  rewrite Hlen.
  replace (S (S (String.length p)) - 2)%nat with (String.length p) by lia.
  replace (S (S (String.length p)) - 1)%nat with (S (String.length p)) by lia.
  rewrite !find_is_here by (rewrite Hlen; lia).
  rewrite drop_app, drop_app_cons.
  replace (2 <? S (S (String.length p)))%nat with (negb (benchmark.is_empty p))
    by (destruct p; reflexivity).
  reflexivity.
Qed.

Lemma block_size_mult_single c :
  cmd_block.block_size_mult (String c EmptyString) = 1.
Proof. reflexivity. Qed.

Lemma upper_nonempty p : p <> EmptyString -> upper p <> EmptyString.
Proof. destruct p; [contradiction | discriminate]. Qed.

Lemma upper_app p q : upper (String.append p q) = String.append (upper p) (upper q).
Proof. apply transform_app. Qed.

Lemma prefix_cons a s1 b s2 :
  String.prefix (String a s1) (String b s2)
  = Ascii.eqb a b && String.prefix s1 s2.
Proof.
  cbn [String.prefix]. destruct (ascii_dec a b) as [->|Hne].
  - now rewrite Ascii.eqb_refl.
  - apply Ascii.eqb_neq in Hne. now rewrite Hne.
Qed.

Lemma mult_kilo p sfx :
  p <> EmptyString -> upper sfx = "K"%string \/ upper sfx = "KB"%string ->
  cmd_block.block_size_mult (upper (String.append p sfx)) = 1024.
Proof.
  intros Hp Hsfx. rewrite upper_app. apply upper_nonempty in Hp.
  destruct Hsfx as [-> | ->].
  - destruct (string_snoc _ Hp) as (q & x & ->).
    rewrite append_assoc. cbn [String.append].
    rewrite block_size_mult_tail. unfold mult_of_tail. cbv zeta.
    replace (String.prefix "K" "K") with true by reflexivity.
    now rewrite orb_true_r.
  - rewrite block_size_mult_tail. unfold mult_of_tail.
    destruct (upper p); [contradiction | reflexivity].
Qed.

Lemma mult_mega p sfx :
  p <> EmptyString -> upper sfx = "M"%string \/ upper sfx = "MB"%string ->
  cmd_block.block_size_mult (upper (String.append p sfx)) = 1024 * 1024.
Proof.
  intros Hp Hsfx. rewrite upper_app. apply upper_nonempty in Hp.
  destruct Hsfx as [-> | ->].
  - destruct (string_snoc _ Hp) as (q & x & ->).
    rewrite append_assoc. cbn [String.append].
    rewrite block_size_mult_tail. unfold mult_of_tail. cbv zeta.
    rewrite !prefix_cons.
    destruct (Ascii.eqb "K" x), (Ascii.eqb "M" x);
      destruct (benchmark.is_empty q); reflexivity.
  - rewrite block_size_mult_tail. unfold mult_of_tail.
    destruct (upper p); [contradiction | reflexivity].
Qed.

Lemma mult_none p d :
  libc.isdigit d = true ->
  cmd_block.block_size_mult (upper (String.append p (String d EmptyString))) = 1.
Proof.
  intros Hd. rewrite upper_app. cbn [upper libc.transform].
  destruct (upper p) as [|c u] eqn:Hu.
  - ascii_cases d; try discriminate Hd; reflexivity.
  - destruct (string_snoc (String c u)) as (q & x & ->); [discriminate|].
    rewrite append_assoc. cbn [String.append].
    rewrite block_size_mult_tail. unfold mult_of_tail.
    cbv zeta. rewrite !prefix_cons.
    ascii_cases d; try discriminate Hd;
      destruct (Ascii.eqb "K" x), (Ascii.eqb "M" x);
      destruct (benchmark.is_empty q); reflexivity.
Qed.

Lemma get_block_size_unset s :
  cmd_block.get_block_size s (-1) =
  if (libc.atoi s =? 0) && negb (str_eqb s "0")
  then (Throw "invalid block size format", 0)
  else let v := wrap_int32 (libc.atoi s * cmd_block.block_size_mult (upper s))
       in (Ok v, v).
Proof.
  unfold cmd_block.get_block_size. cbn [Z.ltb Z.compare].
  fold (upper s). rewrite atoi_upper, upper_is_zero.
  destruct (libc.atoi s =? 0) eqn:E; [|reflexivity].
  apply Z.eqb_eq in E. rewrite E.
  destruct (str_eqb s "0"); reflexivity.
Qed.

(** C3: with its static unset, [get_block_size] throws when the text
    reads as the number 0 without being the text 0, and otherwise returns
    the number the text starts with times the multiplier of its ending,
    in 32 bits: 1024 for a non-empty text followed by K or KB, 1024*1024
    for one followed by M or MB, in either case of the letters, and 1 for
    a text that ends in a digit.  So 4K gives 4096, 2MB gives 2097152, 0
    gives 0, -1 gives a negative value, and abc and the empty text
    throw. *)
Theorem get_block_size_interprets :
  (forall s, cmd_block.get_block_size s (-1) =
     if (libc.atoi s =? 0) && negb (str_eqb s "0")
     then (Throw "invalid block size format", 0)
     else let v := wrap_int32 (libc.atoi s * cmd_block.block_size_mult (upper s))
          in (Ok v, v))
  /\ (forall p sfx, p <> EmptyString ->
        upper sfx = "K"%string \/ upper sfx = "KB"%string ->
        cmd_block.block_size_mult (upper (String.append p sfx)) = 1024)
  /\ (forall p sfx, p <> EmptyString ->
        upper sfx = "M"%string \/ upper sfx = "MB"%string ->
        cmd_block.block_size_mult (upper (String.append p sfx)) = 1024 * 1024)
  /\ (forall p d, libc.isdigit d = true ->
        cmd_block.block_size_mult
          (upper (String.append p (String d EmptyString))) = 1)
  /\ fst (cmd_block.get_block_size "4K" (-1)) = Ok 4096
  /\ fst (cmd_block.get_block_size "2MB" (-1)) = Ok 2097152
  /\ fst (cmd_block.get_block_size "0" (-1)) = Ok 0
  /\ (exists v, fst (cmd_block.get_block_size "-1" (-1)) = Ok v /\ v < 0)
  /\ fst (cmd_block.get_block_size "abc" (-1))
     = Throw "invalid block size format"
  /\ fst (cmd_block.get_block_size "" (-1))
     = Throw "invalid block size format"
  /\ (forall s, libc.atoi s = 0 -> s <> "0"%string ->
        fst (cmd_block.get_block_size s (-1))
        = Throw "invalid block size format").
Proof.
  split; [exact get_block_size_unset|].
  split; [exact mult_kilo|].
  split; [exact mult_mega|].
  split; [exact mult_none|].
  repeat (split; [reflexivity|]).
  split; [exists (-1); split; [reflexivity | lia]|].
  repeat (split; [reflexivity|]).
  intros s Hzero Hne. rewrite get_block_size_unset, Hzero.
  apply String.eqb_neq in Hne. unfold str_eqb. now rewrite Hne.
Qed.

(** ** Command line splicer *)

Section SplicerFacts.
Context `{Strtod}.

(** The inner loop moves the [length mid] elements after position
    [length pre] one place down; the last of them stays behind as well. *)
Lemma shift_left_spec mid : forall pre x post,
  cmd.shift_left (length mid) (length pre) (pre ++ x :: mid ++ post)
  = pre ++ mid ++ List.last (x :: mid) EmptyString :: post.
Proof.
  induction mid as [|y mid IH]; intros pre x post; [reflexivity|].
  cbn [length cmd.shift_left].
  replace (nth (S (length pre)) (pre ++ x :: (y :: mid) ++ post) EmptyString)
    with y.
  2:{ rewrite app_nth2 by lia.
      replace (S (length pre) - length pre)%nat with 1%nat by lia.
      reflexivity. }
  replace (<[length pre:=y]> (pre ++ x :: (y :: mid) ++ post))
    with ((pre ++ [y]) ++ y :: mid ++ post).
  2:{ rewrite insert_app_r_alt by lia.
      rewrite Nat.sub_diag. cbn. now rewrite <- app_assoc. }
  replace (S (length pre)) with (length (pre ++ [y]))
    by (rewrite length_app; cbn; lia).
  rewrite IH. rewrite <- app_assoc. reflexivity.
Qed.

Lemma parse_loop_unfold fuel i st :
  cmd.parse_loop (S fuel) i st =
  if (i <? cmd.argc st)%nat then
    let arg := nth i (cmd.argv st) EmptyString in
    match cmd.parse_flag arg with
    | Some a =>
        cmd.parse_loop fuel i
          {| cmd.argc := cmd.argc st - 1;
             cmd.argv := cmd.shift_left (cmd.argc st - 1 - i) i (cmd.argv st);
             cmd.FLAGS := cmd.store a (cmd.FLAGS st);
             cmd.help_printed := cmd.help_printed st |}
    | None =>
        cmd.parse_loop fuel (S i)
          (if benchmark.IsFlag arg "help" then cmd.print_help st else st)
    end
  else Some st.
Proof. reflexivity. Qed.

Lemma parse_loop_done fuel i st :
  (cmd.argc st <= i)%nat -> cmd.parse_loop fuel i st = Some st.
Proof.
  intros Hdone. apply Nat.ltb_ge in Hdone.
  destruct fuel; cbn [cmd.parse_loop]; now rewrite Hdone.
Qed.

(** The loop from index [length kept] on, the array being the tokens
    [kept] already passed, the tokens [todo] still to look at, and what
    lies beyond [argc]: the unrecognized tokens of [todo] are moved up
    behind [kept], every recognized one is stored, in order. *)
Lemma parse_loop_spec todo : forall fuel kept junk st,
  (length todo <= fuel)%nat ->
  cmd.argc st = (length kept + length todo)%nat ->
  cmd.argv st = kept ++ todo ++ junk ->
  exists st' junk',
    cmd.parse_loop fuel (length kept) st = Some st'
    /\ cmd.argc st'
       = (length kept + length (List.filter unrecognized todo))%nat
    /\ cmd.argv st' = kept ++ List.filter unrecognized todo ++ junk'
    /\ cmd.FLAGS st' = fold_left assign todo (cmd.FLAGS st)
    /\ cmd.help_printed st'
       = (cmd.help_printed st + length (List.filter asks_help todo))%nat.
Proof.
  induction todo as [|a todo IH]; intros fuel kept junk st Hfuel Hargc Hargv.
  - exists st, junk. rewrite parse_loop_done by (rewrite Hargc; cbn; lia).
    cbn [List.filter length fold_left app]. rewrite !Nat.add_0_r.
    cbn in Hargc. rewrite Nat.add_0_r in Hargc. auto.
  - destruct fuel as [|fuel]; [cbn in Hfuel; lia|].
    cbn [length] in Hfuel, Hargc.
    rewrite parse_loop_unfold.
    replace (length kept <? cmd.argc st)%nat with true
      by (symmetry; apply Nat.ltb_lt; lia).
    cbv zeta.
    replace (nth (length kept) (cmd.argv st) EmptyString) with a
      by (rewrite Hargv, app_nth2, Nat.sub_diag by lia; reflexivity).
    cbn [List.filter fold_left].
    destruct (cmd.parse_flag a) as [asg|] eqn:Ea.
    + assert (Hu : unrecognized a = false)
        by (unfold unrecognized; now rewrite Ea).
      assert (Ha : assign (cmd.FLAGS st) a = cmd.store asg (cmd.FLAGS st))
        by (unfold assign; now rewrite Ea).
      unfold asks_help at 1. rewrite Hu, Ha. cbn [andb].
      match goal with |- context [cmd.parse_loop fuel _ ?s] => set (st1 := s) end.
      destruct (IH fuel kept (List.last (a :: todo) EmptyString :: junk) st1)
        as (st' & junk' & Hrun & Hc & Hv & Hf & Hh).
      * lia.
      * subst st1. cbn [cmd.argc]. lia.
      * subst st1. cbn [cmd.argv]. rewrite Hargc, Hargv.
        replace (length kept + S (length todo) - 1 - length kept)%nat
          with (length todo) by lia.
        apply shift_left_spec.
      * exists st', junk'. subst st1.
        cbn [cmd.FLAGS cmd.help_printed andb] in *. auto.
    + assert (Hu : unrecognized a = true)
        by (unfold unrecognized; now rewrite Ea).
      assert (Ha : assign (cmd.FLAGS st) a = cmd.FLAGS st)
        by (unfold assign; now rewrite Ea).
      unfold asks_help at 1. rewrite Hu, Ha. cbn [andb].
      match goal with |- context [cmd.parse_loop fuel _ ?s] => set (st1 := s) end.
      assert (Hsame : cmd.argc st1 = cmd.argc st /\ cmd.argv st1 = cmd.argv st
                      /\ cmd.FLAGS st1 = cmd.FLAGS st)
        by (subst st1; destruct (benchmark.IsFlag a "help"); auto).
      destruct Hsame as (Hc1 & Hv1 & Hf1).
      destruct (IH fuel (kept ++ [a]) junk st1)
        as (st' & junk' & Hrun & Hc & Hv & Hf & Hh).
      * lia.
      * rewrite Hc1, length_app. cbn [length]. lia.
      * rewrite Hv1, <- app_assoc. exact Hargv.
      * exists st', junk'.
        rewrite length_app, Nat.add_1_r in Hrun. rewrite Hrun.
        rewrite length_app, <- app_assoc in *. cbn [length app andb] in *.
        rewrite Hf1 in Hf.
        split; [reflexivity|]. split; [lia|].
        split; [assumption|]. split; [assumption|].
        rewrite Hh. subst st1.
        destruct (benchmark.IsFlag a "help");
          cbn [cmd.print_help cmd.help_printed length]; lia.
Qed.

Lemma store_holds a F : holds a (cmd.store a F).
Proof. unfold holds. destruct F, a; reflexivity. Qed.

Lemma store_other a a' F :
  flag_of a' <> flag_of a -> holds a F -> holds a (cmd.store a' F).
Proof.
  unfold holds. intros Hne Hheld.
  destruct F, a, a'; cbn in *; try contradiction; congruence.
Qed.

(** What [holds] says for two of the globals. *)
Lemma holds_no_hw v F : holds (cmd.set_no_hw v) F <-> cmd.FLAGS_no_hw F = v.
Proof.
  unfold holds. destruct F. cbn. split.
  - now intros [= ->].
  - now intros ->.
Qed.

Lemma holds_block_size v F :
  holds (cmd.set_block_size v) F <-> cmd.FLAGS_block_size F = v.
Proof.
  unfold holds. destruct F. cbn. split.
  - now intros [= ->].
  - now intros ->.
Qed.

(** A value that no later token overwrites is the value stored. *)
Lemma fold_assign_holds a post : forall F,
  holds a F -> not_set_again a post -> holds a (fold_left assign post F).
Proof.
  induction post as [|arg post IH]; intros F Hheld Hlast; [exact Hheld|].
  cbn [fold_left]. apply IH.
  - unfold assign. destruct (cmd.parse_flag arg) as [a'|] eqn:Ea; [|exact Hheld].
    apply store_other; [|exact Hheld].
    apply (Hlast arg a'); [now left | exact Ea].
  - intros arg' a' Hin. apply Hlast. now right.
Qed.

Lemma fold_assign_last pre arg post a F :
  cmd.parse_flag arg = Some a -> not_set_again a post ->
  holds a (fold_left assign (pre ++ arg :: post) F).
Proof.
  intros Ea Hlast. rewrite fold_left_app. cbn [fold_left].
  apply fold_assign_holds; [|exact Hlast].
  replace (assign (fold_left assign pre F) arg)
    with (cmd.store a (fold_left assign pre F))
    by (unfold assign; now rewrite Ea).
  apply store_holds.
Qed.

(** [parse_local] returns, having kept the program name and the
    unrecognized tokens and stored the recognized ones in order. *)
Lemma parse_local_spec args F :
  exists st,
    cmd.parse_local args F = Some st
    /\ cmd.remaining st = spliced args
    /\ cmd.FLAGS st = fold_left assign (tail args) F
    /\ cmd.help_printed st = length (List.filter asks_help (tail args)).
Proof.
  unfold cmd.parse_local. destruct args as [|prog rest].
  - eexists. split; [reflexivity|]. repeat split.
  - destruct (parse_loop_spec rest (length (prog :: rest)) [prog] []
                {| cmd.argc := length (prog :: rest); cmd.argv := prog :: rest;
                   cmd.FLAGS := F; cmd.help_printed := 0 |})
      as (st & junk & Hrun & Hc & Hv & Hf & Hh).
    + cbn [length]. lia.
    + reflexivity.
    + cbn [cmd.argv app]. now rewrite app_nil_r.
    + exists st. split; [exact Hrun|]. split; [|split; assumption].
      unfold cmd.remaining, spliced. rewrite Hc, Hv.
      cbn [length app Nat.add firstn]. f_equal.
      rewrite firstn_app, Nat.sub_diag, firstn_all. cbn [firstn].
      now rewrite app_nil_r.
Qed.
End SplicerFacts.

(** C4, as the loop has it: position 0, the program name, is never
    looked at and stays; of the tokens after it exactly the unrecognized
    ones remain, in their order, and the recognized ones are stored one
    after the other, so that a flag holds the value of its last
    recognized occurrence after the program name.  For the arguments
    prog, --block_size=4K, --no_hw, --foo what remains is prog, --foo, the
    block size resolves to 4096 and [no_hw] is true. *)
Theorem parse_local_splices `{Strtod} (args : list string) (F : cmd.flags) :
  exists st,
    cmd.parse_local args F = Some st
    /\ cmd.remaining st = spliced args
    /\ cmd.FLAGS st = fold_left assign (tail args) F
    /\ (forall pre arg post a,
          tail args = pre ++ arg :: post ->
          cmd.parse_flag arg = Some a -> not_set_again a post ->
          holds a (cmd.FLAGS st))
    /\ (exists st0,
          cmd.parse_local scenario_args cmd.default_flags = Some st0
          /\ cmd.remaining st0 = ["prog"; "--foo"]%string
          /\ fst (cmd_block.get_block_size
                    (cmd.FLAGS_block_size (cmd.FLAGS st0)) (-1)) = Ok 4096
          /\ cmd.FLAGS_no_hw (cmd.FLAGS st0) = true).
Proof.
  destruct (parse_local_spec args F) as (st & Hrun & Hrem & Hflags & _).
  exists st. split; [exact Hrun|]. split; [exact Hrem|].
  split; [exact Hflags|]. split.
  - intros pre arg post a Htail Ea Hlast. rewrite Hflags, Htail.
    now apply fold_assign_last.
  - eexists. split; [reflexivity|]. repeat split.
Qed.

(** C4 as worded fails when the program name reads as a flag: the token
    is a recognized one, it remains in the list, and [no_hw] keeps its
    default although the token says true. *)
Lemma program_name_is_not_parsed :
  @cmd.parse_flag integers_only "--no_hw" = Some (cmd.set_no_hw true)
  /\ option_map cmd.remaining
       (@cmd.parse_local integers_only flag_as_program_name
          (@cmd.default_flags integers_only))
     = Some ["--no_hw"%string]
  /\ option_map (fun st => cmd.FLAGS_no_hw (cmd.FLAGS st))
       (@cmd.parse_local integers_only flag_as_program_name
          (@cmd.default_flags integers_only))
     = Some false.
Proof. repeat split. Qed.

(** ** Memory placement *)

(** [get_in_mem] maps the four documented names, in any case of the
    letters, and throws on every other text. *)
Lemma get_in_mem_total s :
  fst (cmd_mem.get_in_mem s None) =
  if str_eqb (lower s) "cache" then Ok cache
  else if str_eqb (lower s) "llc" then Ok llc
  else if str_eqb (lower s) "ram" then Ok ram
  else if str_eqb (lower s) "pmem" then Ok pmem
  else Throw "invalid input memory location".
Proof.
  unfold cmd_mem.get_in_mem. fold (lower s).
  repeat match goal with
  | |- context [str_eqb (lower s) ?lit] => destruct (str_eqb (lower s) lit)
  end; reflexivity.
Qed.

(** [get_out_mem] compares with the literals of the source. *)
Lemma get_out_mem_total s :
  fst (cmd_mem.get_out_mem s None) =
  if str_eqb (lower s) "ram" then Ok ram
  else if str_eqb (lower s) "pmem" then Ok pmem
  else if str_eqb (lower s) lit_cc_ram then Ok cc_ram
  else if str_eqb (lower s) lit_cc_pmem then Ok cc_pmem
  else Throw "invalid output memory location".
Proof.
  unfold cmd_mem.get_out_mem. fold (lower s).
  repeat match goal with
  | |- context [str_eqb (lower s) ?lit] => destruct (str_eqb (lower s) lit)
  end; reflexivity.
Qed.

(** C1 at the documented output names: [get_out_mem] throws on the ASCII
    texts cc_ram and cc_pmem, in either case of the letters, because its
    two literals hold the bytes 0xD1 0x81 where the names have the letter
    c; what it maps to [cc_ram] and [cc_pmem] are those other byte
    strings.  The names ram and pmem, and the four names of [get_in_mem],
    are mapped as documented. *)
Theorem get_out_mem_rejects_documented_names :
  cmd_mem.get_out_mem "cc_ram" None
    = (Throw "invalid output memory location", None)
  /\ cmd_mem.get_out_mem "cc_pmem" None
    = (Throw "invalid output memory location", None)
  /\ cmd_mem.get_out_mem "CC_RAM" None
    = (Throw "invalid output memory location", None)
  /\ cmd_mem.get_out_mem lit_cc_ram None = (Ok cc_ram, Some cc_ram)
  /\ cmd_mem.get_out_mem lit_cc_pmem None = (Ok cc_pmem, Some cc_pmem)
  /\ str_eqb lit_cc_ram "cc_ram" = false
  /\ str_eqb lit_cc_pmem "cc_pmem" = false
  /\ cmd_mem.get_out_mem "RAM" None = (Ok ram, Some ram)
  /\ cmd_mem.get_out_mem "pmem" None = (Ok pmem, Some pmem)
  /\ cmd_mem.get_in_mem "Cache" None = (Ok cache, Some cache)
  /\ cmd_mem.get_in_mem "llc" None = (Ok llc, Some llc).
Proof. repeat split. Qed.

(** ** Entry point *)

(** What [main] needs of a run of [init_hw]. *)
Lemma init_hw_cases {HW}
    (lib : details.qpl_call -> HW -> details.reply * HW) (hw : HW) :
  let '(res, _, calls) := details.run lib details.init_hw hw in
  is_ok res = forallb succeeded calls
  /\ match res with
     | Ok _ => map (fun cr => details.entry_of (fst cr)) calls = handshake
     | Throw what =>
         exists e,
           what = String.append "hw init failed in " (details.entry_name e)
     end.
Proof.
  pose proof (init_hw_run lib hw) as Hrun.
  destruct (details.run lib details.init_hw hw) as [[res hw1] calls].
  destruct Hrun as (Hok & [k Hk] & Hres). split; [exact Hok|].
  destruct res as [b|what].
  - destruct Hres as (_ & [size Hcalls] & _).
    rewrite <- (map_map fst details.entry_of), Hcalls. reflexivity.
  - destruct Hres as (before & c & r & _ & _ & _ & ->).
    now exists (details.entry_of c).
Qed.

(** C7, as [main] has it: the steps are taken in the order splice,
    [Initialize], report of unrecognized arguments, system information,
    readiness check unless [no_hw] is set, callbacks, measurement loop,
    shutdown; [main] returns 1 right after the report when the framework
    reports an argument; an exception of [get_sys_info] or [init_hw] ends
    the process where it is thrown; and when neither happens every
    registered callback has been invoked and [main] returns 0, whatever
    the measurement loop returned. *)
Theorem main_sequence `{Strtod} {W HW : Type}
    (fw : entry.framework W)
    (lib : details.qpl_call -> HW -> details.reply * HW)
    (m : sysinfo.machine) (registry : details.registry_t W)
    (args : list string) (F : cmd.flags) (hw0 : HW) (w0 : W) :
  let F1 := fold_left assign (tail args) F in
  let args1 := spliced args in
  let args2 := fst (entry.Initialize fw args1 w0) in
  let w1 := snd (entry.Initialize fw args1 w0) in
  let full := full_run (cmd.FLAGS_no_hw F1) args1 args2 (length registry) in
  exists out p,
    entry.main fw lib m registry args F sysinfo.initial hw0 w0 = Some (out, p)
    /\ entry.flag_store p = F1
    /\ (exists k, entry.steps p = firstn k full)
    /\ (if entry.ReportUnrecognizedArguments fw args2
        then out = entry.Returned 1 /\ entry.steps p = firstn 3 full
        else
          (out = entry.Returned 0 \/ exists what, out = entry.Uncaught what)
          /\ (out = entry.Returned 0 ->
                entry.steps p = full
                /\ entry.invoked p = registry
                /\ entry.world p =
                   entry.Shutdown fw
                     (snd (entry.RunSpecifiedBenchmarks fw
                             (fold_left (fun w reg => reg w) registry w1)))
                /\ (if cmd.FLAGS_no_hw F1 then entry.qpl_calls p = []
                    else map (fun cr => details.entry_of (fst cr))
                           (entry.qpl_calls p) = handshake))
          /\ (sysinfo.proc_cpuinfo m = None ->
                out = entry.Uncaught "Failed to open /proc/cpuinfo"
                /\ entry.steps p = firstn 4 full)
          /\ (forall lines, sysinfo.proc_cpuinfo m = Some lines ->
                if cmd.FLAGS_no_hw F1 then out = entry.Returned 0
                else out = entry.Returned 0
                     <-> forallb succeeded (entry.qpl_calls p) = true)).
Proof.
  cbv zeta. unfold entry.main, details.get_registry.
  destruct (parse_local_spec args F) as (sp & -> & -> & -> & _).
  destruct (entry.Initialize fw (spliced args) w0) as [args2 w1] eqn:Einit.
  cbn [fst snd].
  set (F1 := fold_left assign (tail args) F).
  set (full := full_run (cmd.FLAGS_no_hw F1) (spliced args) args2 (length registry)).
  destruct (entry.ReportUnrecognizedArguments fw args2) eqn:Erep.
  { eexists _, _. split; [reflexivity|]. cbn [entry.flag_store entry.steps].
    split; [reflexivity|]. split; [now exists 3%nat|]. now split. }
  unfold sysinfo.get_sys_info. cbn [sysinfo.initial sysinfo.guard_locked
    sysinfo.is_setup negb sysinfo.info sysinfo.printed].
  destruct (sysinfo.proc_cpuinfo m) as [lines|] eqn:Eopen.
  2:{ eexists _, _. split; [reflexivity|]. cbn [entry.flag_store entry.steps app].
      split; [reflexivity|]. split; [now exists 4%nat|].
      split; [right; eauto|]. split; [discriminate|].
      split; [now split|]. discriminate. }
  pose proof (drain_invoked registry w1) as Hinv.
  pose proof (drain_state registry w1) as Hst.
  destruct (details.drain registry w1) as [w2 called]. cbn [fst snd] in *.
  subst called w2.
  destruct (entry.RunSpecifiedBenchmarks fw _) as [ran w3] eqn:Erun.
  subst full. unfold full_run.
  destruct (cmd.FLAGS_no_hw F1) eqn:Enohw; cbn [negb].
  { eexists _, _. split; [reflexivity|].
    cbn [entry.flag_store entry.steps entry.invoked entry.world
         entry.qpl_calls app].
    split; [reflexivity|]. split; [now exists 7%nat|].
    split; [now left|]. split; [auto|]. split; [discriminate|].
    intros lines' _. reflexivity. }
  pose proof (init_hw_cases lib hw0) as Hhw.
  destruct (details.run lib details.init_hw hw0) as [[res hw1] calls].
  destruct Hhw as (Hok & Hres).
  destruct res as [b|what].
  - eexists _, _. split; [reflexivity|].
    cbn [entry.flag_store entry.steps entry.invoked entry.world
         entry.qpl_calls app].
    split; [reflexivity|]. split; [now exists 8%nat|].
    split; [now left|]. split; [auto|]. split; [discriminate|].
    intros lines' _. cbn [is_ok] in Hok. rewrite <- Hok. tauto.
  - eexists _, _. split; [reflexivity|].
    cbn [entry.flag_store entry.steps entry.invoked entry.world
         entry.qpl_calls app].
    split; [reflexivity|]. split; [now exists 5%nat|].
    split; [right; eauto|]. split; [discriminate|]. split; [discriminate|].
    intros lines' _. cbn [is_ok] in Hok. rewrite <- Hok.
    split; discriminate.
Qed.

(** C7 as worded fails in its last part: with a measurement loop that
    returns 3, no unrecognized argument and no failure, [main] returns
    0. *)
Lemma main_returns_zero_not_the_loop_result :
  entry.ReportUnrecognizedArguments counting_framework ["prog"%string] = false
  /\ fst (entry.RunSpecifiedBenchmarks counting_framework 3%nat) = 3
  /\ option_map (fun r => (fst r, entry.world (snd r)))
       (@entry.main integers_only nat unit counting_framework ready_library
          (machine_with stepping_twice) three_benchmarks ["prog"%string]
          (@cmd.default_flags integers_only) sysinfo.initial tt 0%nat)
     = Some (entry.Returned 0, 3%nat).
Proof. repeat split. Qed.

(** * Further properties *)

(** ** The accessors of the flag store *)

Lemma tolower_toupper c : libc.tolower (libc.toupper c) = libc.tolower c.
Proof. ascii_cases c; reflexivity. Qed.

Lemma toupper_tolower c : libc.toupper (libc.tolower c) = libc.toupper c.
Proof. ascii_cases c; reflexivity. Qed.

Lemma lower_upper s : lower (upper s) = lower s.
Proof.
  induction s as [|c s IH]; [reflexivity|].
  unfold upper, lower in *. cbn [libc.transform]. now rewrite tolower_toupper, IH.
Qed.

Lemma upper_lower s : upper (lower s) = upper s.
Proof.
  induction s as [|c s IH]; [reflexivity|].
  unfold upper, lower in *. cbn [libc.transform]. now rewrite toupper_tolower, IH.
Qed.

Lemma lower_lower s : lower (lower s) = lower s.
Proof.
  induction s as [|c s IH]; [reflexivity|].
  unfold lower in *. cbn [libc.transform]. rewrite IH. f_equal.
  ascii_cases c; reflexivity.
Qed.

Lemma upper_upper s : upper (upper s) = upper s.
Proof.
  induction s as [|c s IH]; [reflexivity|].
  unfold upper in *. cbn [libc.transform]. rewrite IH. f_equal.
  ascii_cases c; reflexivity.
Qed.

(** X1: the memory placement accessors read the flag without regard to
    the case of its ASCII letters: the flag in upper case, in lower case
    or as given leads to the same outcome and the same static. *)
Theorem mem_accessors_ignore_case s mem :
  cmd_mem.get_in_mem (upper s) mem = cmd_mem.get_in_mem s mem
  /\ cmd_mem.get_in_mem (lower s) mem = cmd_mem.get_in_mem s mem
  /\ cmd_mem.get_out_mem (upper s) mem = cmd_mem.get_out_mem s mem
  /\ cmd_mem.get_out_mem (lower s) mem = cmd_mem.get_out_mem s mem.
Proof.
  unfold cmd_mem.get_in_mem, cmd_mem.get_out_mem.
  change (libc.transform libc.tolower) with lower.
  now rewrite lower_upper, lower_lower.
Qed.

(** X2: so does [get_block_size]. *)
Theorem get_block_size_ignores_case s block_size :
  cmd_block.get_block_size (upper s) block_size
    = cmd_block.get_block_size s block_size
  /\ cmd_block.get_block_size (lower s) block_size
    = cmd_block.get_block_size s block_size.
Proof.
  unfold cmd_block.get_block_size.
  change (libc.transform libc.toupper) with upper.
  now rewrite upper_upper, upper_lower.
Qed.

(** X3: a memory placement accessor that has returned a location keeps
    it: the static holds it and every later call returns it whatever the
    flag says by then.  A call that throws leaves the static unset, so
    the flag is read again at the next call. *)
Theorem mem_accessors_cache s s' :
  match cmd_mem.get_in_mem s None with
  | (Ok m, mem) => mem = Some m /\ cmd_mem.get_in_mem s' mem = (Ok m, mem)
  | (Throw _, mem) => mem = None
  end
  /\ match cmd_mem.get_out_mem s None with
     | (Ok m, mem) => mem = Some m /\ cmd_mem.get_out_mem s' mem = (Ok m, mem)
     | (Throw _, mem) => mem = None
     end.
Proof.
  unfold cmd_mem.get_in_mem, cmd_mem.get_out_mem. split;
    repeat match goal with
    | |- context [str_eqb ?a ?b] => destruct (str_eqb a b)
    end; auto.
Qed.

(** X4: what [get_block_size] leaves in its static.  A value that is
    not negative is kept, and every later call returns it whatever the
    flag says by then; a negative value is not kept, the next call reads
    the flag afresh; and after the format exception the static is 0, so
    the next call returns 0 without looking at the flag. *)
Theorem get_block_size_cache s s' block_size :
  match cmd_block.get_block_size s block_size with
  | (Ok v, static) =>
      static = v
      /\ cmd_block.get_block_size s' static =
         if v <? 0 then cmd_block.get_block_size s' (-1) else (Ok v, v)
  | (Throw _, static) =>
      static = 0 /\ cmd_block.get_block_size s' static = (Ok 0, 0)
  end.
Proof.
  unfold cmd_block.get_block_size at 1.
  destruct (block_size <? 0) eqn:Eneg.
  - destruct ((libc.atoi (libc.transform libc.toupper s) =? 0)
              && negb (str_eqb (libc.transform libc.toupper s) "0")) eqn:Ebad.
    + apply andb_prop in Ebad as [Ezero _]. apply Z.eqb_eq in Ezero.
      rewrite Ezero. now split.
    + cbv zeta. split; [reflexivity|].
      unfold cmd_block.get_block_size.
      destruct (wrap_int32 _ <? 0); reflexivity.
  - split; [reflexivity|]. rewrite Eneg.
    unfold cmd_block.get_block_size. now rewrite Eneg.
Qed.

(** ** The splicer, further *)

Section SplicerMore.
Context `{Strtod}.

Lemma filter_unrecognized_idem args :
  List.filter unrecognized (List.filter unrecognized args)
  = List.filter unrecognized args.
Proof.
  induction args as [|a args IH]; [reflexivity|].
  cbn [List.filter]. destruct (unrecognized a) eqn:Ea; [|exact IH].
  cbn [List.filter]. now rewrite Ea, IH.
Qed.

Lemma fold_assign_unrecognized args : forall F,
  fold_left assign (List.filter unrecognized args) F = F.
Proof.
  induction args as [|a args IH]; intros F; [reflexivity|].
  cbn [List.filter]. destruct (unrecognized a) eqn:Ea; [|apply IH].
  cbn [fold_left]. unfold assign at 2. unfold unrecognized in Ea.
  destruct (cmd.parse_flag a); [discriminate|]. apply IH.
Qed.

Lemma spliced_idem args : spliced (spliced args) = spliced args.
Proof.
  destruct args as [|prog rest]; [reflexivity|].
  cbn [spliced]. now rewrite filter_unrecognized_idem.
Qed.

Lemma tail_spliced args :
  tail (spliced args) = List.filter unrecognized (tail args).
Proof. destruct args; reflexivity. Qed.

Lemma asks_help_unrecognized args :
  List.filter asks_help (List.filter unrecognized args)
  = List.filter asks_help args.
Proof.
  induction args as [|a args IH]; [reflexivity|].
  cbn [List.filter]. unfold asks_help at 2 3.
  destruct (unrecognized a) eqn:Ea; cbn [andb List.filter].
  - unfold asks_help at 1. rewrite Ea. cbn [andb].
    destruct (benchmark.IsFlag a "help"); now rewrite IH.
  - exact IH.
Qed.
End SplicerMore.

(** X5: splicing twice is splicing once.  [parse_local] run on the
    argument list it has left removes nothing more and leaves the flag
    store as it finds it; only the usage text is printed again for the
    tokens that ask for it. *)
Theorem parse_local_twice `{Strtod} (args : list string) (F F' : cmd.flags) :
  exists st st',
    cmd.parse_local args F = Some st
    /\ cmd.parse_local (cmd.remaining st) F' = Some st'
    /\ cmd.remaining st' = cmd.remaining st
    /\ cmd.FLAGS st' = F'
    /\ cmd.help_printed st' = cmd.help_printed st.
Proof.
  destruct (parse_local_spec args F) as (st & Hrun & Hrem & Hflags & Hhelp).
  destruct (parse_local_spec (cmd.remaining st) F')
    as (st' & Hrun' & Hrem' & Hflags' & Hhelp').
  exists st, st'. split; [exact Hrun|]. split; [exact Hrun'|].
  rewrite Hrem', Hflags', Hhelp', Hhelp, Hrem.
  rewrite spliced_idem, tail_spliced, fold_assign_unrecognized,
    asks_help_unrecognized.
  auto.
Qed.

Lemma prefix_app p : forall s,
  String.prefix p s = true -> exists r, s = String.append p r.
Proof.
  induction p as [|a p IH]; intros s Hp.
  - now exists s.
  - destruct s as [|b s]; [discriminate Hp|].
    rewrite prefix_cons in Hp. apply andb_prop in Hp as [Hab Hps].
    apply Ascii.eqb_eq in Hab. subst b.
    destruct (IH s Hps) as [r ->]. now exists r.
Qed.

Lemma is_help_starts arg :
  is_help arg = true -> exists r, arg = String.append "--help" r.
Proof.
  unfold is_help, benchmark.IsFlag, benchmark.ParseFlagValue. cbv zeta.
  destruct (String.prefix (String.append "--" "help") arg) eqn:Hp;
    [|discriminate].
  intros _. now apply prefix_app.
Qed.

(** The chain of [parse_local] claims no token that starts with
    [--help]. *)
Lemma help_unrecognized `{Strtod} arg :
  is_help arg = true -> cmd.parse_flag arg = None.
Proof.
  intros Hhelp. destruct (is_help_starts arg Hhelp) as [r ->]. reflexivity.
Qed.

Lemma asks_help_is_help `{Strtod} args :
  List.filter asks_help args = List.filter is_help args.
Proof.
  induction args as [|a args IH]; [reflexivity|].
  cbn [List.filter]. rewrite IH. unfold asks_help, unrecognized.
  fold (is_help a). destruct (is_help a) eqn:Ea.
  - now rewrite (help_unrecognized a Ea).
  - now rewrite andb_false_r.
Qed.

Lemma filter_sublist {A} (f : A -> bool) l : sublist (List.filter f l) l.
Proof.
  induction l as [|a l IH]; [constructor|].
  cbn [List.filter]. destruct (f a); now constructor.
Qed.

Lemma filter_filter_sub {A} (f g : A -> bool) l :
  (forall a, f a = true -> g a = true) ->
  List.filter f (List.filter g l) = List.filter f l.
Proof.
  intros Hfg. induction l as [|a l IH]; [reflexivity|].
  cbn [List.filter]. destruct (g a) eqn:Eg; cbn [List.filter].
  - now rewrite IH.
  - destruct (f a) eqn:Ef; [|exact IH].
    rewrite (Hfg a Ef) in Eg. discriminate.
Qed.

(** What [IsFlag(tok, "help")] accepts: the token [--help] itself and
    the tokens [--help=] followed by anything. *)
Lemma is_help_spec arg :
  is_help arg = true
  <-> arg = "--help"%string
      \/ exists v, arg = String.append "--help=" v.
Proof.
  split.
  - intros Hhelp. destruct (is_help_starts arg Hhelp) as [r ->].
    destruct r as [|c r]; [now left|]. right.
    revert Hhelp. unfold is_help, benchmark.IsFlag, benchmark.ParseFlagValue.
    cbv zeta.
    destruct (negb (String.prefix (String.append "--" "help")
                      (String.append "--help" (String c r))));
      [discriminate|].
    change (std.drop (String.length (String.append "--" "help"))
              (String.append "--help" (String c r))) with (String c r).
    cbn [benchmark.is_empty andb].
    destruct c as [[] [] [] [] [] [] [] []]; try discriminate.
    intros _. now exists r.
  - intros [->|[v ->]]; [reflexivity|].
    unfold is_help, benchmark.IsFlag, benchmark.ParseFlagValue. cbv zeta.
    replace (String.prefix (String.append "--" "help")
               (String.append "--help=" v)) with true
      by (symmetry; cbn [String.append]; rewrite !prefix_cons;
          cbn; now destruct v).
    reflexivity.
Qed.

(** X6: [parse_local] prints the usage text once for every token after
    the program name that [IsFlag(tok, "help")] accepts, that is, for
    the token [--help] and for every token [--help=] followed by
    anything, and for no other token (not for [--helpx], [-help] or
    [help]); such a token stays in the argument list, in its place among
    the tokens left, for the framework to see. *)
Theorem parse_local_help `{Strtod} (args : list string) (F : cmd.flags) :
  (forall arg,
     is_help arg = true
     <-> arg = "--help"%string
         \/ exists v, arg = String.append "--help=" v)
  /\ is_help "--helpx" = false
  /\ is_help "-help" = false
  /\ is_help "help" = false
  /\ exists st,
       cmd.parse_local args F = Some st
       /\ cmd.help_printed st = length (List.filter is_help (tail args))
       /\ List.filter is_help (tail (cmd.remaining st))
          = List.filter is_help (tail args).
Proof.
  split; [exact is_help_spec|]. do 3 (split; [reflexivity|]).
  destruct (parse_local_spec args F) as (st & Hrun & Hrem & _ & Hhelp).
  exists st. split; [exact Hrun|].
  rewrite Hhelp, Hrem, tail_spliced, asks_help_is_help.
  split; [reflexivity|].
  apply filter_filter_sub. intros a Ha. unfold unrecognized.
  now rewrite (help_unrecognized a Ha).
Qed.

Lemma shift_left_length n : forall j argv,
  length (cmd.shift_left n j argv) = length argv.
Proof.
  induction n as [|n IH]; intros j argv; [reflexivity|].
  cbn [cmd.shift_left]. now rewrite IH, length_insert.
Qed.

Lemma In_insert {A} (l : list A) : forall j y x,
  In x (<[j:=y]> l) -> x = y \/ In x l.
Proof.
  induction l as [|a l IH]; intros j y x Hin; [now right|].
  destruct j as [|j]; cbn in Hin.
  - destruct Hin as [<-|Hin]; [now left | right; now right].
  - destruct Hin as [<-|Hin]; [right; now left|].
    apply IH in Hin as [->|Hin]; [now left | right; now right].
Qed.

Lemma shift_left_In n : forall j argv x,
  (j + n < length argv)%nat ->
  In x (cmd.shift_left n j argv) -> In x argv.
Proof.
  induction n as [|n IH]; intros j argv x Hj Hin; [exact Hin|].
  cbn [cmd.shift_left] in Hin. apply IH in Hin.
  2:{ rewrite length_insert. lia. }
  apply In_insert in Hin as [->|Hin]; [|exact Hin].
  apply nth_In. lia.
Qed.

Section InPlace.
Context `{Strtod}.

(** The loop writes inside the array only: its length stays, the count
    does not grow, and every entry is one of the entries before. *)
Lemma parse_loop_in_place fuel : forall i st st',
  (cmd.argc st <= length (cmd.argv st))%nat ->
  cmd.parse_loop fuel i st = Some st' ->
  length (cmd.argv st') = length (cmd.argv st)
  /\ (cmd.argc st' <= cmd.argc st)%nat
  /\ (forall x, In x (cmd.argv st') -> In x (cmd.argv st)).
Proof.
  induction fuel as [|fuel IH]; intros i st st' Hc Hrun.
  - cbn [cmd.parse_loop] in Hrun.
    destruct (i <? cmd.argc st)%nat; [discriminate|].
    injection Hrun as <-. auto.
  - rewrite parse_loop_unfold in Hrun.
    destruct (i <? cmd.argc st)%nat eqn:Ei; [|injection Hrun as <-; auto].
    apply Nat.ltb_lt in Ei. cbv zeta in Hrun.
    destruct (cmd.parse_flag _) as [a|].
    + apply IH in Hrun; cbn [cmd.argc cmd.argv] in *.
      2:{ rewrite shift_left_length. lia. }
      destruct Hrun as (Hlen & Hargc & Hin).
      rewrite shift_left_length in Hlen.
      split; [exact Hlen|]. split; [lia|].
      intros x Hx. apply Hin in Hx. apply shift_left_In in Hx; [exact Hx|lia].
    + apply IH in Hrun.
      * destruct (benchmark.IsFlag _ "help"); exact Hrun.
      * destruct (benchmark.IsFlag _ "help"); exact Hc.
Qed.
End InPlace.

(** X7: [parse_local] works inside the array it is given.  The array
    keeps its length and holds no string that was not in it before; the
    count does not grow and is the length of what remains; the program
    name stays first; and what remains is a subsequence of the
    arguments. *)
Theorem parse_local_in_place `{Strtod} (args : list string) (F : cmd.flags) :
  exists st,
    cmd.parse_local args F = Some st
    /\ length (cmd.argv st) = length args
    /\ (cmd.argc st <= length args)%nat
    /\ length (cmd.remaining st) = cmd.argc st
    /\ head (cmd.remaining st) = head args
    /\ sublist (cmd.remaining st) args
    /\ (forall x, In x (cmd.argv st) -> In x args).
Proof.
  destruct (parse_local_spec args F) as (st & Hrun & Hrem & _).
  exists st. split; [exact Hrun|].
  destruct (parse_loop_in_place (length args) 1
              {| cmd.argc := length args; cmd.argv := args;
                 cmd.FLAGS := F; cmd.help_printed := 0 |} st)
    as (Hlen & Hargc & Hin); [cbn; lia | exact Hrun |].
  cbn [cmd.argc cmd.argv] in *.
  split; [exact Hlen|]. split; [exact Hargc|].
  split; [unfold cmd.remaining; rewrite length_firstn; lia|].
  rewrite Hrem. split; [now destruct args|].
  split; [|exact Hin].
  destruct args as [|prog rest]; [constructor|].
  cbn [spliced]. constructor. apply filter_sublist.
Qed.

Lemma skipn_last {A} (d : A) mid : forall x post,
  skipn (length mid) (x :: mid ++ post) = List.last (x :: mid) d :: post.
Proof.
  induction mid as [|y mid IH]; intros x post; [reflexivity|].
  cbn [length skipn app]. rewrite IH. reflexivity.
Qed.

Lemma shift_left_parts pre x mid post :
  let argv := pre ++ x :: mid ++ post in
  let argv' := cmd.shift_left (length mid) (length pre) argv in
  firstn (length pre + length mid) argv' = pre ++ mid
  /\ skipn (length pre + length mid) argv'
     = skipn (length pre + length mid) argv.
Proof.
  cbv zeta. rewrite shift_left_spec. split.
  - rewrite app_assoc, <- length_app.
    now rewrite firstn_app, Nat.sub_diag, firstn_all, app_nil_r.
  - rewrite app_assoc, <- length_app.
    rewrite skipn_app, skipn_all, Nat.sub_diag. cbn [app skipn].
    rewrite length_app, (Nat.add_comm (length pre)), <- skipn_skipn.
    rewrite skipn_app, skipn_all, Nat.sub_diag. cbn [app skipn].
    now rewrite (skipn_last EmptyString).
Qed.

(** An array as the entries before [i], the entry at [i], the entries
    after it up to [count], and the rest. *)
Lemma array_parts (argv : list string) (i count : nat) :
  (i < count)%nat -> (count <= length argv)%nat ->
  exists pre x mid post,
    argv = pre ++ x :: mid ++ post
    /\ length pre = i /\ length mid = (count - 1 - i)%nat.
Proof.
  intros Hi Hcount.
  destruct (skipn i argv) as [|x rest] eqn:Hrest.
  { apply (f_equal (@length _)) in Hrest.
    rewrite length_skipn in Hrest. cbn in Hrest. lia. }
  exists (firstn i argv), x, (firstn (count - 1 - i) rest),
    (skipn (count - 1 - i) rest).
  rewrite firstn_skipn, <- Hrest, firstn_skipn.
  split; [reflexivity|].
  apply (f_equal (@length _)) in Hrest.
  rewrite length_skipn in Hrest. cbn [length] in Hrest.
  rewrite !length_firstn. lia.
Qed.

(** X8: the inner loop of [parse_local] removes the entry at [i] from
    the first [count] entries of the array: the entries before [i] stay,
    those after it up to [count] move one place down, the array keeps its
    length and the entries from [count - 1] on are not written. *)
Theorem shift_left_removes (argv : list string) (i count : nat) :
  (i < count)%nat -> (count <= length argv)%nat ->
  let argv' := cmd.shift_left (count - 1 - i) i argv in
  firstn (count - 1) argv'
    = firstn i argv ++ firstn (count - 1 - i) (skipn (S i) argv)
  /\ length argv' = length argv
  /\ skipn (count - 1) argv' = skipn (count - 1) argv.
Proof.
  intros Hi Hcount. cbv zeta.
  destruct (array_parts argv i count Hi Hcount)
    as (pre & x & mid & post & -> & Hpre & Hmid).
  replace (count - 1)%nat with (length pre + length mid)%nat by lia.
  replace (length pre + length mid - i)%nat with (length mid) by lia.
  subst i.
  destruct (shift_left_parts pre x mid post) as [Hfirst Hskip].
  cbv zeta in Hfirst, Hskip.
  split; [|split; [apply shift_left_length | exact Hskip]].
  rewrite Hfirst.
  rewrite firstn_app, Nat.sub_diag, firstn_all. cbn [firstn]. rewrite app_nil_r.
  f_equal.
  replace (S (length pre)) with (length (pre ++ [x]))
    by (rewrite length_app; cbn; lia).
  replace (pre ++ x :: mid ++ post) with ((pre ++ [x]) ++ mid ++ post)
    by (now rewrite <- app_assoc).
  rewrite skipn_app, skipn_all, Nat.sub_diag, drop_0. cbn [app].
  now rewrite firstn_app, Nat.sub_diag, firstn_all, app_nil_r.
Qed.

Lemma shift_left_removes_witness :
  let argv' := cmd.shift_left (4 - 1 - 1) 1 ["a"; "b"; "c"; "d"; "e"]%string in
  firstn (4 - 1) argv'
    = firstn 1 ["a"; "b"; "c"; "d"; "e"]%string
      ++ firstn (4 - 1 - 1) (skipn 2 ["a"; "b"; "c"; "d"; "e"]%string)
  /\ length argv' = length ["a"; "b"; "c"; "d"; "e"]%string
  /\ skipn (4 - 1) argv' = skipn (4 - 1) ["a"; "b"; "c"; "d"; "e"]%string.
Proof.
  apply (shift_left_removes ["a"; "b"; "c"; "d"; "e"]%string 1 4); cbn; lia.
Defined.

(** ** From the command line to the accessors *)

Section Tokens.
Context `{Strtod}.

(** A string flag takes whatever follows the [=], the empty text
    included. *)
Lemma parse_flag_string v :
  cmd.parse_flag (String.append "--dataset=" v) = Some (cmd.set_dataset v)
  /\ cmd.parse_flag (String.append "--block_size=" v)
     = Some (cmd.set_block_size v)
  /\ cmd.parse_flag (String.append "--in_mem=" v) = Some (cmd.set_in_mem v)
  /\ cmd.parse_flag (String.append "--out_mem=" v) = Some (cmd.set_out_mem v).
Proof. repeat split. Qed.

Lemma parse_local_last pre tok post a prog F :
  cmd.parse_flag tok = Some a -> not_set_again a post ->
  exists st,
    cmd.parse_local (prog :: pre ++ tok :: post) F = Some st
    /\ cmd.remaining st = spliced (prog :: pre ++ post)
    /\ holds a (cmd.FLAGS st).
Proof.
  intros Htok Hlast.
  destruct (parse_local_spec (prog :: pre ++ tok :: post) F)
    as (st & Hrun & Hrem & Hflags & _).
  exists st. split; [exact Hrun|]. split.
  - rewrite Hrem. cbn [spliced]. f_equal.
    rewrite !List.filter_app. cbn [List.filter].
    unfold unrecognized at 2. now rewrite Htok.
  - rewrite Hflags. cbn [tail]. now apply fold_assign_last.
Qed.
End Tokens.

(** X9: a token [--block_size=v], [--in_mem=v] or [--out_mem=v] after
    the program name, with no later token for the same flag, is taken out
    of the argument list, and the accessor then resolves exactly as it
    does on the text [v]: what follows the [=] reaches the accessor
    unchanged. *)
Theorem flags_reach_accessors `{Strtod}
    (prog : string) (pre post : list string) (v : string) (F : cmd.flags) :
  (not_set_again (cmd.set_block_size v) post ->
   exists st,
     cmd.parse_local
       (prog :: pre ++ String.append "--block_size=" v :: post) F = Some st
     /\ cmd.remaining st = spliced (prog :: pre ++ post)
     /\ cmd_block.get_block_size (cmd.FLAGS_block_size (cmd.FLAGS st)) (-1)
        = cmd_block.get_block_size v (-1))
  /\ (not_set_again (cmd.set_in_mem v) post ->
      exists st,
        cmd.parse_local
          (prog :: pre ++ String.append "--in_mem=" v :: post) F = Some st
        /\ cmd.remaining st = spliced (prog :: pre ++ post)
        /\ cmd_mem.get_in_mem (cmd.FLAGS_in_mem (cmd.FLAGS st)) None
           = cmd_mem.get_in_mem v None)
  /\ (not_set_again (cmd.set_out_mem v) post ->
      exists st,
        cmd.parse_local
          (prog :: pre ++ String.append "--out_mem=" v :: post) F = Some st
        /\ cmd.remaining st = spliced (prog :: pre ++ post)
        /\ cmd_mem.get_out_mem (cmd.FLAGS_out_mem (cmd.FLAGS st)) None
           = cmd_mem.get_out_mem v None).
Proof.
  destruct (parse_flag_string v) as (_ & Hb & Hi & Ho).
  split; [|split]; intros Hlast.
  - destruct (parse_local_last pre _ post _ prog F Hb Hlast)
      as (st & Hrun & Hrem & Hheld).
    exists st. split; [exact Hrun|]. split; [exact Hrem|].
    unfold holds in Hheld. destruct (cmd.FLAGS st). cbn in *.
    now injection Hheld as ->.
  - destruct (parse_local_last pre _ post _ prog F Hi Hlast)
      as (st & Hrun & Hrem & Hheld).
    exists st. split; [exact Hrun|]. split; [exact Hrem|].
    unfold holds in Hheld. destruct (cmd.FLAGS st). cbn in *.
    now injection Hheld as ->.
  - destruct (parse_local_last pre _ post _ prog F Ho Hlast)
      as (st & Hrun & Hrem & Hheld).
    exists st. split; [exact Hrun|]. split; [exact Hrem|].
    unfold holds in Hheld. destruct (cmd.FLAGS st). cbn in *.
    now injection Hheld as ->.
Qed.

Lemma wrap_int32_range z : - 2 ^ 31 <= wrap_int32 z <= INT_MAX.
Proof.
  unfold wrap_int32, INT_MAX.
  pose proof (Z.mod_pos_bound (z + 2 ^ 31) (2 ^ 32)). lia.
Qed.

Lemma wrap_int32_id z : - 2 ^ 31 <= z <= INT_MAX -> wrap_int32 z = z.
Proof.
  unfold wrap_int32, INT_MAX. intros Hz.
  rewrite Z.mod_small by lia. lia.
Qed.

(** [ParseInt32] accepts a text exactly when [strtol] consumes all of it
    and the number read fits [int32_t]. *)
Lemma ParseInt32_some v z :
  benchmark.ParseInt32 v = Some z
  <-> libc.strtol v 10 = (z, EmptyString) /\ - 2 ^ 31 <= z <= INT_MAX.
Proof.
  unfold benchmark.ParseInt32.
  destruct (libc.strtol v 10) as [long_value end_].
  destruct end_ as [|c rest]; cbn [benchmark.is_empty negb].
  - destruct ((long_value =? LONG_MAX) || (long_value =? LONG_MIN)
              || negb (wrap_int32 long_value =? long_value)) eqn:E.
    + split; [discriminate|]. intros [Heq Hz]. injection Heq as ->.
      rewrite (wrap_int32_id z Hz), Z.eqb_refl in E.
      cbn [negb] in E. rewrite orb_false_r in E.
      apply orb_prop in E as [E|E]; apply Z.eqb_eq in E;
        unfold LONG_MAX, LONG_MIN, INT_MAX in *; lia.
    + apply orb_false_elim in E as [_ E].
      apply negb_false_iff, Z.eqb_eq in E. split.
      * intros Heq. injection Heq as <-. split; [now rewrite E|].
        apply wrap_int32_range.
      * intros [Heq _]. injection Heq as ->. now rewrite E.
  - split; [discriminate|]. intros [Heq _]. discriminate Heq.
Qed.

Lemma ParseInt32_none v :
  benchmark.ParseInt32 v = None
  <-> snd (libc.strtol v 10) <> EmptyString
      \/ ~ (- 2 ^ 31 <= fst (libc.strtol v 10) <= INT_MAX).
Proof.
  destruct (benchmark.ParseInt32 v) as [z|] eqn:E.
  - apply ParseInt32_some in E as [E Hz]. rewrite E. cbn [fst snd].
    split; [discriminate|]. intros [Hrest|Hout]; [now elim Hrest|].
    now elim Hout.
  - split; [|reflexivity]. intros _.
    destruct (libc.strtol v 10) as [z rest] eqn:Es. cbn [fst snd].
    destruct rest as [|c rest]; [|now left]. right. intros Hz.
    assert (Hsome : benchmark.ParseInt32 v = Some z)
      by (apply ParseInt32_some; now rewrite Es).
    rewrite E in Hsome. discriminate Hsome.
Qed.

(** A token the chain does not accept, alone after the program name, is
    left where it is and no flag changes. *)
Lemma parse_local_rejected `{Strtod} tok prog F :
  cmd.parse_flag tok = None ->
  exists st,
    cmd.parse_local [prog; tok] F = Some st
    /\ cmd.FLAGS st = F /\ cmd.remaining st = [prog; tok].
Proof.
  intros Hnone.
  destruct (parse_local_spec [prog; tok] F) as (st & Hrun & Hrem & Hflags & _).
  exists st. split; [exact Hrun|]. rewrite Hflags, Hrem.
  cbn [tail fold_left spliced List.filter]. unfold assign, unrecognized.
  now rewrite Hnone.
Qed.

(** X10: with [benchmark::ParseInt32Flag] as Google Benchmark defines it
    ([strtol] in base 10, then the checks for unread text and for
    [int32_t] overflow), a token [--threads=v] (and likewise for [node],
    [queue_size] and [batch_size]) is accepted with the number [z] if and
    only if [strtol] reads all of [v] and the number read is [z], within
    the range of [int32_t]; it is accepted by no flag of the chain if and
    only if [strtol] leaves text unread or the number read is outside
    that range, and such a token, alone after the program name, stays in
    the argument list and every flag keeps its value.  In particular an
    empty [v] is accepted as 0, blanks before the number and a sign are
    accepted, and text after the number, a hexadecimal prefix and the
    number 2147483648 are not. *)
Theorem int_flags_checked `{Strtod} (v : string) :
  (forall z,
     cmd.parse_flag (String.append "--threads=" v) = Some (cmd.set_threads z)
     <-> libc.strtol v 10 = (z, EmptyString) /\ - 2 ^ 31 <= z <= INT_MAX)
  /\ (forall z,
        cmd.parse_flag (String.append "--node=" v) = Some (cmd.set_node z)
        <-> libc.strtol v 10 = (z, EmptyString) /\ - 2 ^ 31 <= z <= INT_MAX)
  /\ (forall z,
        cmd.parse_flag (String.append "--queue_size=" v)
          = Some (cmd.set_queue_size z)
        <-> libc.strtol v 10 = (z, EmptyString) /\ - 2 ^ 31 <= z <= INT_MAX)
  /\ (forall z,
        cmd.parse_flag (String.append "--batch_size=" v)
          = Some (cmd.set_batch_size z)
        <-> libc.strtol v 10 = (z, EmptyString) /\ - 2 ^ 31 <= z <= INT_MAX)
  /\ (forall name,
        In name ["--threads="; "--node="; "--queue_size="; "--batch_size="]
        %string ->
        (cmd.parse_flag (String.append name v) = None
         <-> snd (libc.strtol v 10) <> EmptyString
             \/ ~ (- 2 ^ 31 <= fst (libc.strtol v 10) <= INT_MAX))
        /\ (cmd.parse_flag (String.append name v) = None ->
            forall prog F, exists st,
              cmd.parse_local [prog; String.append name v] F = Some st
              /\ cmd.FLAGS st = F
              /\ cmd.remaining st = [prog; String.append name v]))
  /\ cmd.parse_flag "--threads=" = Some (cmd.set_threads 0)
  /\ cmd.parse_flag "--threads=  -12" = Some (cmd.set_threads (-12))
  /\ cmd.parse_flag "--threads=+2147483647"
     = Some (cmd.set_threads 2147483647)
  /\ cmd.parse_flag "--threads=-2147483648"
     = Some (cmd.set_threads (-2147483648))
  /\ cmd.parse_flag "--threads=2147483648" = None
  /\ cmd.parse_flag "--threads=12x" = None
  /\ cmd.parse_flag "--threads=0x10" = None
  /\ cmd.parse_flag "--threads=four" = None.
Proof.
  assert (Ht : cmd.parse_flag (String.append "--threads=" v)
               = cmd.set_threads <$> benchmark.ParseInt32 v)
    by (cbv -[benchmark.ParseInt32];
        destruct (benchmark.ParseInt32 v); reflexivity).
  assert (Hn : cmd.parse_flag (String.append "--node=" v)
               = cmd.set_node <$> benchmark.ParseInt32 v)
    by (cbv -[benchmark.ParseInt32];
        destruct (benchmark.ParseInt32 v); reflexivity).
  assert (Hq : cmd.parse_flag (String.append "--queue_size=" v)
               = cmd.set_queue_size <$> benchmark.ParseInt32 v)
    by (cbv -[benchmark.ParseInt32];
        destruct (benchmark.ParseInt32 v); reflexivity).
  assert (Hb : cmd.parse_flag (String.append "--batch_size=" v)
               = cmd.set_batch_size <$> benchmark.ParseInt32 v)
    by (cbv -[benchmark.ParseInt32];
        destruct (benchmark.ParseInt32 v); reflexivity).
  split; [|split; [|split; [|split; [|split]]]].
  1-4: intros z; rewrite <- ParseInt32_some;
       rewrite ?Ht, ?Hn, ?Hq, ?Hb;
       destruct (benchmark.ParseInt32 v) as [z'|]; cbn [fmap option_fmap option_map];
       split; intros Heq; try discriminate Heq;
       injection Heq as ->; reflexivity.
  - intros name Hin.
    assert (Hname : cmd.parse_flag (String.append name v) = None
                    <-> benchmark.ParseInt32 v = None).
    { cbn [In] in Hin.
      destruct Hin as [<-|[<-|[<-|[<-|[]]]]];
        rewrite ?Ht, ?Hn, ?Hq, ?Hb;
        destruct (benchmark.ParseInt32 v); cbn [fmap option_fmap option_map];
        split; intros Heq; try discriminate Heq; reflexivity. }
    split.
    + rewrite Hname. apply ParseInt32_none.
    + intros Hnone prog F. now apply parse_local_rejected.
  - repeat split.
Qed.

(** X11: a flag for which the arguments after the program name have no
    accepted token keeps the value it had before [parse_local]; without
    any such token for any flag the whole flag store is unchanged. *)
Theorem parse_local_keeps_other_flags `{Strtod}
    (args : list string) (F : cmd.flags) :
  exists st,
    cmd.parse_local args F = Some st
    /\ (forall a, holds a F -> not_set_again a (tail args) ->
                  holds a (cmd.FLAGS st))
    /\ (Forall (fun arg => unrecognized arg = true) (tail args) ->
        cmd.FLAGS st = F /\ cmd.remaining st = args).
Proof.
  destruct (parse_local_spec args F) as (st & Hrun & Hrem & Hflags & _).
  exists st. split; [exact Hrun|]. split.
  - intros a Hheld Hnone. rewrite Hflags. now apply fold_assign_holds.
  - intros Hall. rewrite Hflags, Hrem.
    assert (Hfilter : List.filter unrecognized (tail args) = tail args).
    { clear -Hall. revert Hall. generalize (tail args). intros l Hall.
      induction Hall as [|arg rest Harg _ IH]; [reflexivity|].
      cbn [List.filter]. now rewrite Harg, IH. }
    split.
    + rewrite <- Hfilter. apply fold_assign_unrecognized.
    + destruct args as [|prog rest]; [reflexivity|].
      cbn [spliced tail] in *. now rewrite Hfilter.
Qed.

(** ** Device count, further *)

Lemma devices_at_app l d1 d2 :
  devices_at l (d1 ++ d2) = devices_at l d1 + devices_at l d2.
Proof.
  unfold devices_at. rewrite count_occ_app. lia.
Qed.

(** X12: for a node that fits 32 bits and a device list short enough for
    the [int] counter, the count is between 0 and the number of devices,
    and counting a list in two parts and adding gives the count of the
    whole. *)
Theorem get_num_devices_bounds disp1 disp2 numa :
  0 <= numa <= UINT32_MAX ->
  Z.of_nat (length (disp1 ++ disp2)) <= INT_MAX ->
  0 <= details.get_num_devices (disp1 ++ disp2) numa
    <= Z.of_nat (length (disp1 ++ disp2))
  /\ details.get_num_devices (disp1 ++ disp2) numa
     = details.get_num_devices disp1 numa + details.get_num_devices disp2 numa.
Proof.
  intros Hn Hlen.
  assert (Hlen1 : Z.of_nat (length disp1) <= INT_MAX)
    by (rewrite length_app in Hlen; lia).
  assert (Hlen2 : Z.of_nat (length disp2) <= INT_MAX)
    by (rewrite length_app in Hlen; lia).
  rewrite !get_num_devices_count by assumption.
  rewrite !devices_at_app. split; [|lia].
  rewrite <- !devices_at_app.
  assert (Hne : numa <> details.numa_unknown)
    by (rewrite numa_unknown_value; unfold UINT32_MAX, UINT64_MAX in *; lia).
  generalize (disp1 ++ disp2). intros disp.
  pose proof (devices_at_nonneg numa disp).
  pose proof (devices_at_nonneg details.numa_unknown disp).
  split; [lia|]. clear -Hne.
  induction disp as [|d disp IH]; [unfold devices_at; cbn; lia|].
  rewrite !devices_at_cons. cbn [length].
  destruct (d =? numa) eqn:E1, (d =? details.numa_unknown) eqn:E2; lia.
Qed.

Lemma get_num_devices_bounds_witness :
  0 <= details.get_num_devices ([0; 1] ++ [details.numa_unknown; 0]) 0
    <= Z.of_nat (length ([0; 1] ++ [details.numa_unknown; 0]))
  /\ details.get_num_devices ([0; 1] ++ [details.numa_unknown; 0]) 0
     = details.get_num_devices [0; 1] 0
       + details.get_num_devices [details.numa_unknown; 0] 0.
Proof.
  apply (get_num_devices_bounds [0; 1] [details.numa_unknown; 0] 0).
  - unfold UINT32_MAX. lia.
  - unfold INT_MAX. cbn. lia.
Defined.

(** X13: [get_current_numa_accels] never asks for the all-ones node: the
    node it takes from the 32 bits of [TSC_AUX] is below 2^20, and the
    count it returns is the devices on that node plus the devices of
    unknown locality. *)
Theorem get_current_numa_accels_node disp tsc_aux :
  0 <= tsc_aux <= UINT32_MAX -> Z.of_nat (length disp) <= INT_MAX ->
  let node := tsc_aux / 4096 in
  0 <= node < 2 ^ 20
  /\ details.get_current_numa_accels disp tsc_aux
     = devices_at node disp + devices_at details.numa_unknown disp.
Proof.
  intros Ht Hlen. cbv zeta. unfold UINT32_MAX in Ht.
  assert (Hnode : 0 <= tsc_aux / 4096 < 2 ^ 20).
  { split; [apply Z.div_pos; lia|].
    apply Z.div_lt_upper_bound; lia. }
  split; [exact Hnode|].
  unfold details.get_current_numa_accels.
  rewrite Z.shiftr_div_pow2 by lia. change (2 ^ 12) with 4096.
  rewrite wrap_uint32_small by (unfold UINT32_MAX; lia).
  apply get_num_devices_count; [unfold UINT32_MAX; lia | exact Hlen].
Qed.

Lemma get_current_numa_accels_node_witness :
  let node := 8192 / 4096 in
  0 <= node < 2 ^ 20
  /\ details.get_current_numa_accels [2; 0; details.numa_unknown] 8192
     = devices_at node [2; 0; details.numa_unknown]
       + devices_at details.numa_unknown [2; 0; details.numa_unknown].
Proof.
  apply (get_current_numa_accels_node [2; 0; details.numa_unknown] 8192).
  - unfold UINT32_MAX. lia.
  - unfold INT_MAX. cbn. lia.
Defined.

(** ** System information, further *)

Lemma wrap_uint32_add_l a b :
  wrap_uint32 (wrap_uint32 a + b) = wrap_uint32 (a + b).
Proof. unfold wrap_uint32. now rewrite Zplus_mod_idemp_l. Qed.

(** The loop over the sockets, from socket [s] on. *)
Lemma fold_add_socket disp n : forall s ac,
  fold_left (sysinfo.add_socket disp) (seq s n) ac =
  {| sysinfo.total_devices :=
       if (n =? 0)%nat then sysinfo.total_devices ac
       else wrap_uint32
              (sysinfo.total_devices ac
               + sum_Z (map (fun i => details.get_num_devices disp (Z.of_nat i))
                          (seq s n)));
     sysinfo.socket :=
       sysinfo.socket ac
       ++ map (fun i => details.get_num_devices disp (Z.of_nat i)) (seq s n) |}.
Proof.
  induction n as [|n IH]; intros s ac.
  - cbn. rewrite app_nil_r. now destruct ac.
  - cbn [seq fold_left map]. rewrite IH. unfold sysinfo.add_socket.
    cbn [sysinfo.total_devices sysinfo.socket sum_Z fold_right Nat.eqb].
    rewrite <- app_assoc. cbn [app]. f_equal.
    destruct (n =? 0)%nat eqn:En.
    + apply Nat.eqb_eq in En. subst n. cbn. now rewrite Z.add_0_r.
    + fold (sum_Z (map (fun i => details.get_num_devices disp (Z.of_nat i))
                     (seq (S s) n))).
      rewrite wrap_uint32_add_l. f_equal. lia.
Qed.

(** X14: the derived part of the snapshot.  The host and kernel names
    are those of [uname]; the physical cores are the cores per socket
    times the sockets, in 32 bits, and the cores per cluster a quarter of
    the cores per socket, rounded down; there is one accelerator count
    per socket, that of [get_num_devices] for the socket's index, in
    order, and the total is their sum in 32 bits. *)
Theorem first_build_derived m lines :
  let snapshot := first_build m lines in
  let sockets := Z.to_nat (sysinfo.cpu_sockets snapshot) in
  sysinfo.host_name snapshot = sysinfo.nodename m
  /\ sysinfo.kernel snapshot = sysinfo.release m
  /\ sysinfo.cpu_physical_cores snapshot
     = wrap_uint32 (sysinfo.cpu_physical_per_socket snapshot
                    * sysinfo.cpu_sockets snapshot)
  /\ sysinfo.cpu_physical_per_cluster snapshot
     = sysinfo.cpu_physical_per_socket snapshot / 4
  /\ sysinfo.socket (sysinfo.accelerators snapshot)
     = per_socket_counts (sysinfo.devices m) sockets
  /\ length (sysinfo.socket (sysinfo.accelerators snapshot)) = sockets
  /\ sysinfo.total_devices (sysinfo.accelerators snapshot)
     = wrap_uint32 (sum_Z (per_socket_counts (sysinfo.devices m) sockets)).
Proof.
  cbv zeta. unfold first_build, sysinfo.build.
  rewrite read_lines_table.
  set (start := sysinfo.set_identity _ _ _).
  assert (Hid : sysinfo.host_name (scan (table lines) start) = sysinfo.nodename m
                /\ sysinfo.kernel (scan (table lines) start) = sysinfo.release m
                /\ sysinfo.accelerators (scan (table lines) start)
                   = {| sysinfo.total_devices := 0; sysinfo.socket := [] |}).
  { assert (Hstart : sysinfo.host_name start = sysinfo.nodename m
                     /\ sysinfo.kernel start = sysinfo.release m
                     /\ sysinfo.accelerators start
                        = {| sysinfo.total_devices := 0; sysinfo.socket := [] |})
      by (subst start; auto).
    clearbody start. revert start Hstart.
    induction (table lines) as [|[k v] pairs IH]; intros start Hstart;
      [exact Hstart|].
    rewrite scan_cons. apply IH. clear IH.
    destruct start. cbn in Hstart. destruct Hstart as (-> & -> & ->).
    unfold sysinfo.descriptor.
    repeat match goal with
    | |- context [if ?b then _ else _] => destruct b
    end; auto. }
  destruct Hid as (Hhost & Hkernel & Hacc).
  destruct (scan (table lines) start) as [hn kr mn md mc st lc pc sk ps pcl ac].
  cbn in Hhost, Hkernel, Hacc. subst hn kr ac.
  cbn [sysinfo.derive sysinfo.count_accelerators sysinfo.host_name
       sysinfo.kernel sysinfo.cpu_physical_cores sysinfo.cpu_sockets
       sysinfo.cpu_physical_per_socket sysinfo.cpu_physical_per_cluster
       sysinfo.accelerators].
  rewrite fold_add_socket.
  cbn [sysinfo.socket sysinfo.total_devices app].
  unfold per_socket_counts, sysinfo.clusters_per_socket.
  repeat split.
  - now rewrite length_map, length_seq.
  - destruct (Z.to_nat sk =? 0)%nat eqn:E.
    + apply Nat.eqb_eq in E. rewrite E. reflexivity.
    + now rewrite Z.add_0_l.
Qed.

Lemma devices_below_succ n disp :
  devices_below (S n) disp = devices_below n disp + devices_at (Z.of_nat n) disp.
Proof.
  unfold devices_below, devices_at.
  induction disp as [|d disp IH]; [reflexivity|].
  cbn [List.filter count_occ].
  destruct (Z.eq_dec d (Z.of_nat n)); destruct (Z.leb_spec 0 d);
    destruct (Z.ltb_spec d (Z.of_nat n));
    destruct (Z.ltb_spec d (Z.of_nat (S n)));
    cbn [andb length]; lia.
Qed.

(** X15: added up over the sockets 0 to [n - 1], the counts of
    [get_num_devices] are the devices whose locality is one of these
    sockets, each counted once, plus [n] times the devices of unknown
    locality, each of which is counted for every socket. *)
Theorem per_socket_counts_sum disp n :
  Z.of_nat n <= UINT32_MAX -> Z.of_nat (length disp) <= INT_MAX ->
  sum_Z (per_socket_counts disp n)
  = devices_below n disp
    + Z.of_nat n * devices_at details.numa_unknown disp.
Proof.
  intros Hn Hlen. unfold per_socket_counts.
  induction n as [|n IH].
  - cbn. unfold devices_below. cbn.
    replace (List.filter _ disp) with (@nil Z); [reflexivity|].
    clear. induction disp as [|d disp IH]; [reflexivity|].
    cbn [List.filter].
    destruct (Z.leb_spec 0 d); destruct (Z.ltb_spec d (Z.of_nat 0));
      cbn [andb]; try exact IH; lia.
  - rewrite seq_S, map_app. cbn [map Nat.add].
    assert (Hsum : forall l1 l2, sum_Z (l1 ++ l2) = sum_Z l1 + sum_Z l2).
    { clear. induction l1 as [|a l1 IH1]; intros l2; cbn; [reflexivity|].
      fold (sum_Z (l1 ++ l2)) (sum_Z l1). rewrite IH1. lia. }
    rewrite Hsum, IH by lia. cbn [sum_Z fold_right].
    rewrite get_num_devices_count by lia.
    rewrite devices_below_succ. lia.
Qed.

Lemma per_socket_counts_sum_witness :
  sum_Z (per_socket_counts [0; 1; 1; 5; details.numa_unknown] 2)
  = devices_below 2 [0; 1; 1; 5; details.numa_unknown]
    + Z.of_nat 2 * devices_at details.numa_unknown
                     [0; 1; 1; 5; details.numa_unknown].
Proof.
  apply (per_socket_counts_sum [0; 1; 1; 5; details.numa_unknown] 2).
  - unfold UINT32_MAX. lia.
  - unfold INT_MAX. cbn. lia.
Defined.

(** X16: when [/proc/cpuinfo] cannot be opened the first call of
    [get_sys_info] throws after it has stored the host and kernel names:
    the flag stays clear, nothing is printed, and the guard is left
    locked, so that a later call does not get past [guard.lock()]. *)
Theorem get_sys_info_open_failure m :
  sysinfo.proc_cpuinfo m = None ->
  exists s1,
    sysinfo.get_sys_info m sysinfo.initial
      = Some (Throw "Failed to open /proc/cpuinfo", s1)
    /\ sysinfo.is_setup s1 = false
    /\ sysinfo.guard_locked s1 = true
    /\ sysinfo.printed s1 = []
    /\ sysinfo.host_name (sysinfo.info s1) = sysinfo.nodename m
    /\ sysinfo.kernel (sysinfo.info s1) = sysinfo.release m
    /\ forall m', sysinfo.get_sys_info m' s1 = None.
Proof.
  intros Hnone. unfold sysinfo.get_sys_info at 1. cbn. rewrite Hnone.
  eexists. split; [reflexivity|]. repeat split.
Qed.

Lemma get_sys_info_open_failure_witness :
  exists s1,
    sysinfo.get_sys_info machine_without_cpuinfo sysinfo.initial
      = Some (Throw "Failed to open /proc/cpuinfo", s1)
    /\ sysinfo.is_setup s1 = false
    /\ sysinfo.guard_locked s1 = true
    /\ sysinfo.printed s1 = []
    /\ sysinfo.host_name (sysinfo.info s1)
       = sysinfo.nodename machine_without_cpuinfo
    /\ sysinfo.kernel (sysinfo.info s1)
       = sysinfo.release machine_without_cpuinfo
    /\ forall m', sysinfo.get_sys_info m' s1 = None.
Proof.
  apply (get_sys_info_open_failure machine_without_cpuinfo). reflexivity.
Defined.

Lemma prefix_colon s :
  String.prefix ":" s = match s with
                        | String c _ => Ascii.eqb ":" c
                        | EmptyString => false
                        end.
Proof.
  destruct s as [|c s]; [reflexivity|].
  rewrite prefix_cons. destruct s; cbn [String.prefix]; apply andb_true_r.
Qed.

(** Where the first colon is. *)
Lemma find_colon s : forall idx,
  match std.find_from ":" idx s with
  | None => has_colon s = false
  | Some k =>
      exists before after,
        s = String.append before (String ":" after)
        /\ has_colon before = false
        /\ k = (idx + String.length before)%nat
  end.
Proof.
  induction s as [|c s IH]; intros idx; [reflexivity|].
  cbn [std.find_from has_colon]. rewrite prefix_colon.
  rewrite (Ascii.eqb_sym c ":").
  destruct (Ascii.eqb ":" c) eqn:Ec.
  - apply Ascii.eqb_eq in Ec. subst c.
    exists EmptyString, s. cbn. split; [reflexivity|]. split; [reflexivity|lia].
  - cbn [orb]. specialize (IH (S idx)).
    destruct (std.find_from ":" (S idx) s) as [k|]; [|exact IH].
    destruct IH as (before & after & -> & Hnone & ->).
    exists (String c before), after. cbn [String.append has_colon String.length].
    rewrite (Ascii.eqb_sym c ":"), Ec. split; [reflexivity|].
    split; [exact Hnone | lia].
Qed.

Lemma take_app p q : std.take (String.length p) (String.append p q) = p.
Proof. induction p as [|c p IH]; cbn; [now destruct q | now rewrite IH]. Qed.

(** X17: a line of the descriptor table is skipped exactly when it has
    no colon (the empty line among them); any other line is cut at its
    first colon, the key being what stands before it and the value all
    that follows it, further colons included, both trimmed. *)
Theorem split_line_at_first_colon line :
  match sysinfo.split_line line with
  | None => has_colon line = false
  | Some (key, val) =>
      exists before after,
        line = String.append before (String ":" after)
        /\ has_colon before = false
        /\ key = sysinfo.trim before
        /\ val = sysinfo.trim after
  end.
Proof.
  unfold sysinfo.split_line. destruct line as [|c line]; [reflexivity|].
  cbn [benchmark.is_empty]. unfold std.find.
  cbn [Nat.leb std.drop].
  pose proof (find_colon (String c line) 0) as Hfind.
  destruct (std.find_from ":" 0 (String c line)) as [k|]; [|exact Hfind].
  destruct Hfind as (before & after & Hline & Hnone & ->).
  exists before, after. rewrite Hline. cbn [Nat.add].
  rewrite take_app.
  replace (String.length before + 1)%nat with (S (String.length before)) by lia.
  now rewrite drop_app_cons.
Qed.

Lemma descriptor_other_key info k v :
  known_key k = false -> sysinfo.descriptor info k v = info.
Proof.
  unfold known_key. intros Hk.
  repeat (apply orb_false_elim in Hk as [Hk ?]).
  destruct info. unfold sysinfo.descriptor.
  repeat match goal with
  | E : str_eqb k _ = false |- _ => rewrite E; clear E
  end.
  now rewrite !andb_false_r.
Qed.

Lemma read_line_passed_over info line :
  passed_over line = true -> sysinfo.read_line info line = info.
Proof.
  unfold passed_over, sysinfo.read_line.
  destruct (sysinfo.split_line line) as [[k v]|]; [|reflexivity].
  intros Hk. apply negb_true_iff in Hk. now apply descriptor_other_key.
Qed.

(** X18: lines the build has no use for do not change the snapshot: a
    line without a colon, or with a key other than the seven the build
    looks for, can be taken out of the descriptor table, wherever it
    stands, and the same snapshot is built. *)
Theorem first_build_passes_over m before line after :
  passed_over line = true ->
  first_build m (before ++ line :: after) = first_build m (before ++ after).
Proof.
  intros Hline. unfold first_build, sysinfo.build.
  rewrite !fold_left_app. cbn [fold_left].
  now rewrite read_line_passed_over.
Qed.

Lemma first_build_passes_over_witness :
  first_build (machine_with stepping_twice)
    (["processor : 0"%string] ++ "flags : fpu vme"%string :: ["stepping : 3"%string])
  = first_build (machine_with stepping_twice)
      (["processor : 0"%string] ++ ["stepping : 3"%string]).
Proof.
  apply (first_build_passes_over (machine_with stepping_twice)
           ["processor : 0"%string] "flags : fpu vme"%string
           ["stepping : 3"%string]).
  reflexivity.
Defined.

(** ** Registry, further *)

(** X19: draining two registries one after the other is draining their
    concatenation: the callbacks of the second run on the state the first
    left, and a callback registered last is invoked last. *)
Theorem drain_app {W} (r1 r2 : details.registry_t W) (cb : W -> W) (w : W) :
  details.drain (r1 ++ r2) w
    = (fst (details.drain r2 (fst (details.drain r1 w))),
       snd (details.drain r1 w) ++ snd (details.drain r2 (fst (details.drain r1 w))))
  /\ details.drain (details.register r1 cb) w
     = (cb (fst (details.drain r1 w)), r1 ++ [cb]).
Proof.
  assert (Happ : forall (a b : details.registry_t W) w0,
    details.drain (a ++ b) w0
    = (fst (details.drain b (fst (details.drain a w0))),
       snd (details.drain a w0) ++ snd (details.drain b (fst (details.drain a w0))))).
  { intros a b w0.
    rewrite (surjective_pairing (details.drain (a ++ b) w0)).
    rewrite !drain_invoked, !drain_state. now rewrite fold_left_app. }
  split; [apply Happ|].
  unfold details.register. rewrite Happ, drain_invoked. reflexivity.
Qed.

(** ** Entry point, further *)


(** ** The extract example *)

Lemma skipn_nth_error {A} (l : list A) : forall i,
  skipn i l = match nth_error l i with
              | Some x => x :: skipn (S i) l
              | None => []
              end.
Proof.
  induction l as [|a l IH]; intros i; [now destruct i|].
  destruct i as [|i]; [reflexivity|].
  cbn [skipn nth_error]. rewrite IH. now destruct (nth_error l i).
Qed.

(** The check loop runs through exactly when the bytes it reads exist and
    agree. *)
Lemma verify_passes n : forall i dest src,
  extract_example.verify n i dest src = None <->
  firstn n (skipn i dest)
    = firstn n (skipn (i + Z.to_nat extract_example.lower_index) src)
  /\ length (firstn n (skipn i dest)) = n.
Proof.
  induction n as [|n IH]; intros i dest src; [cbn; tauto|].
  cbn [extract_example.verify].
  rewrite (skipn_nth_error dest i),
    (skipn_nth_error src (i + Z.to_nat extract_example.lower_index)).
  destruct (nth_error dest i) as [d|];
    [|split; [discriminate | intros [_ Hlen]; discriminate Hlen]].
  destruct (nth_error src (i + Z.to_nat extract_example.lower_index)) as [s|];
    [|split; [discriminate | intros [Heq _]; discriminate Heq]].
  cbn [firstn length].
  destruct (d =? s) eqn:Eds; cbn [negb].
  - apply Z.eqb_eq in Eds. subst s. rewrite IH.
    change (S i + Z.to_nat extract_example.lower_index)%nat
      with (S (i + Z.to_nat extract_example.lower_index)).
    split.
    + intros [Heq Hlen]. split; [f_equal; exact Heq | f_equal; exact Hlen].
    + intros [Heq Hlen]. injection Heq as Heq. injection Hlen as Hlen. auto.
  - apply Z.eqb_neq in Eds. split; [discriminate|].
    intros [Heq _]. injection Heq as Hd _. contradiction.
Qed.

(** X21: the check at the end of the example passes exactly when the
    first [extract_size] bytes of [destination] exist and are the bytes
    of [source] from index 80 on; so it passes for an [extract_size] of 0
    whatever [destination] holds, and never for more than 920 bytes. *)
Theorem verify_accepts (extract_size : nat) (dest : list Z) :
  (extract_example.verify extract_size 0 dest extract_example.source = None
   <-> (extract_size <= length dest)%nat
       /\ firstn extract_size dest
          = firstn extract_size (skipn 80 extract_example.source))
  /\ extract_example.verify 0 0 dest extract_example.source = None
  /\ ((920 < extract_size)%nat ->
      extract_example.verify extract_size 0 dest extract_example.source
      <> None).
Proof.
  assert (Hiff :
    extract_example.verify extract_size 0 dest extract_example.source = None
    <-> (extract_size <= length dest)%nat
        /\ firstn extract_size dest
           = firstn extract_size (skipn 80 extract_example.source)).
  { rewrite verify_passes. cbn [Nat.add skipn].
    change (Z.to_nat extract_example.lower_index) with 80%nat.
    rewrite drop_0, length_firstn. split.
    - intros [Heq Hlen]. split; [lia | exact Heq].
    - intros [Hlen Heq]. split; [exact Heq | lia]. }
  split; [exact Hiff|]. split; [reflexivity|].
  intros Hbig Hpass. apply Hiff in Hpass as [Hlen Heq].
  apply (f_equal (@length _)) in Heq.
  rewrite !length_firstn, length_skipn in Heq.
  assert (Hsrc : length extract_example.source = 1000%nat)
    by (unfold extract_example.source; now rewrite length_map, length_seq).
  rewrite Hsrc in Heq. lia.
Qed.

(** The output of a correct extract of the elements 80 to 123: the 44
    bytes 80, ..., 123. *)
Example verify_correct_extract rest :
  extract_example.verify 44 0
    (map Z.of_nat (seq 80 44) ++ rest) extract_example.source = None.
Proof.
  apply verify_passes. cbn [Nat.add skipn]. rewrite drop_0.
  rewrite firstn_app. rewrite length_map, length_seq. cbn [Nat.sub firstn].
  rewrite app_nil_r, firstn_all2 by (rewrite length_map, length_seq; lia).
  split; [reflexivity|]. now rewrite length_map, length_seq.
Qed.

#[local] Arguments extract_example.failed : simpl never.
#[local] Arguments extract_example.verify : simpl never.
#[local] Arguments went_well : simpl never.

(** The test [main] makes after each library call, [status !=
    QPL_STS_OK], in terms of the status field. *)
Lemma extract_failed_status r :
  (extract_example.failed r = true
   -> extract_example.status r <> details.QPL_STS_OK)
  /\ (extract_example.failed r = false
      -> extract_example.status r = details.QPL_STS_OK).
Proof.
  unfold extract_example.failed. split; intros Hr.
  - apply negb_true_iff in Hr. now apply Z.eqb_neq.
  - apply negb_false_iff in Hr. now apply Z.eqb_eq.
Qed.

Lemma went_well_ok c r :
  extract_example.status r = details.QPL_STS_OK -> went_well (c, r) = true.
Proof. intros Hr. unfold went_well. cbn [snd]. now apply Z.eqb_eq. Qed.

Lemma went_well_not c r :
  extract_example.status r <> details.QPL_STS_OK -> went_well (c, r) = false.
Proof. intros Hr. unfold went_well. cbn [snd]. now apply Z.eqb_neq. Qed.

Ltac settle_status :=
  repeat match goal with
  | H : extract_example.status ?r = details.QPL_STS_OK
    |- context [went_well (?c, ?r)] => rewrite (went_well_ok c r H)
  | H : extract_example.status ?r <> details.QPL_STS_OK
    |- context [went_well (?c, ?r)] => rewrite (went_well_not c r H)
  end.

(** Membership in a list of calls given element by element. *)
Ltac each_call Hin tac :=
  cbn [In] in Hin;
  repeat (destruct Hin as [Hin|Hin]; [tac Hin|]);
  try (now destruct Hin).

Ltac extract_step lib c hw r hw' :=
  destruct (lib c hw) as [r hw'] eqn:?.

(** Every run of the example that gets past [parse_execution_path] is
    one of the five kinds of [extract_trace]. *)
Lemma extract_run {HW}
    (lib : extract_example.call -> HW -> extract_example.reply * HW)
    (path : details.qpl_path_t) (hw : HW) :
  let '(e, _, calls) :=
    extract_example.run lib (extract_example.main 0 path) hw in
  extract_trace path calls e.
Proof.
  unfold extract_example.main. cbn [Z.eqb negb extract_example.run].
  set (c1 := extract_example.qpl_get_job_size path).
  extract_step lib c1 hw r1 hw1.
  destruct (extract_example.failed r1) eqn:E1;
    apply extract_failed_status in E1.
  { cbn. now constructor. }
  cbn [extract_example.run].
  set (c2 := extract_example.malloc (extract_example.size_out r1)).
  extract_step lib c2 hw1 r2 hw2. cbn [extract_example.run].
  set (c3 := extract_example.qpl_init_job path).
  extract_step lib c3 hw2 r3 hw3.
  destruct (extract_example.failed r3) eqn:E3;
    apply extract_failed_status in E3.
  { cbn. now constructor. }
  cbn [extract_example.run].
  change (wrap_uint32 (Z.of_nat (length extract_example.destination)))
    with 1000.
  change {| extract_example.next_in_ptr := extract_example.source;
            extract_example.available_in := extract_example.source_size;
            extract_example.next_out_ptr := extract_example.destination;
            extract_example.available_out := 1000;
            extract_example.op := extract_example.qpl_op_extract;
            extract_example.src1_bit_width := extract_example.input_vector_width;
            extract_example.param_low := extract_example.lower_index;
            extract_example.param_high := extract_example.upper_index;
            extract_example.num_input_elements := extract_example.source_size;
            extract_example.out_bit_width := extract_example.qpl_ow_nom |}
    with extract_job.
  set (c4 := extract_example.qpl_execute_job extract_job).
  extract_step lib c4 hw3 r4 hw4.
  destruct (extract_example.failed r4) eqn:E4;
    apply extract_failed_status in E4.
  { cbn. now constructor. }
  cbn [extract_example.run].
  set (c5 := extract_example.qpl_fini_job).
  extract_step lib c5 hw4 r5 hw5.
  destruct (extract_example.failed r5) eqn:E5;
    apply extract_failed_status in E5.
  { cbn. now constructor. }
  cbn [extract_example.run].
  set (c6 := extract_example.free).
  extract_step lib c6 hw5 r6 hw6.
  fold (checked_ending r4).
  assert (Hend : forall e0, extract_example.run lib (extract_example.End e0) hw6
                            = (e0, hw6, [])) by reflexivity.
  replace (match extract_example.verify
                   (Z.to_nat (extract_example.total_out r4)) 0
                   (extract_example.output r4) extract_example.source with
           | Some e => extract_example.End e
           | None => extract_example.End
                       (extract_example.Returned 0
                          ["Extract was performed successfully."%string])
           end)
    with (extract_example.End (checked_ending r4))
    by (unfold checked_ending; now destruct (extract_example.verify _ _ _ _)).
  rewrite Hend. now constructor.
Qed.

Lemma verify_ending n : forall i dest src e,
  extract_example.verify n i dest src = Some e ->
  e = extract_example.Out_of_bounds
  \/ e = extract_example.Uncaught
           "Incorrect value was chosen while operation performing.".
Proof.
  induction n as [|n IH]; intros i dest src e; [discriminate|].
  unfold extract_example.verify; fold extract_example.verify.
  destruct (nth_error dest i); [|intros [= <-]; now left].
  destruct (nth_error src _); [|intros [= <-]; now left].
  destruct (negb _); [intros [= <-]; now right | apply IH].
Qed.

(** X22: the example returns 1 without a single call when
    [parse_execution_path] fails.  Otherwise it makes its calls in the
    order job size, [malloc], init, execute, finalize, [free], stops at
    the first library call whose reply has a [status] field different
    from [QPL_STS_OK], with the exception that names this call, every
    library call before it having come back with [QPL_STS_OK]; after six
    calls it ends as the check of the output decides; it returns 0 only
    after all six calls, each library call having come back with
    [QPL_STS_OK], with a passed check. *)
Theorem extract_main_runs {HW}
    (lib : extract_example.call -> HW -> extract_example.reply * HW)
    (parse_ret : Z) (path : details.qpl_path_t) (hw : HW) :
  let '(e, _, calls) :=
    extract_example.run lib (extract_example.main parse_ret path) hw in
  if parse_ret =? 0 then
    extract_trace path calls e
    /\ (exists size,
          map fst calls = firstn (length calls) (extract_calls path size))
    /\ match e with
       | extract_example.Returned code _ =>
           code = 0 /\ length calls = 6%nat
           /\ (forall c r, In (c, r) calls -> is_qpl c = true ->
                 extract_example.status r = details.QPL_STS_OK)
           /\ exists r, In (extract_example.qpl_execute_job extract_job, r) calls
                        /\ extract_example.verify
                             (Z.to_nat (extract_example.total_out r)) 0
                             (extract_example.output r)
                             extract_example.source = None
       | extract_example.Uncaught what =>
           (exists before c r,
              calls = before ++ [(c, r)]
              /\ is_qpl c = true
              /\ extract_example.status r <> details.QPL_STS_OK
              /\ (forall c' r', In (c', r') before -> is_qpl c' = true ->
                    extract_example.status r' = details.QPL_STS_OK)
              /\ what = extract_error c)
           \/ (length calls = 6%nat
               /\ (forall c r, In (c, r) calls -> is_qpl c = true ->
                     extract_example.status r = details.QPL_STS_OK)
               /\ what = "Incorrect value was chosen while operation performing."%string)
       | extract_example.Out_of_bounds =>
           length calls = 6%nat
           /\ (forall c r, In (c, r) calls -> is_qpl c = true ->
                 extract_example.status r = details.QPL_STS_OK)
       end
  else e = extract_example.Returned 1 [] /\ calls = [].
Proof.
  destruct (parse_ret =? 0) eqn:Eparse.
  2:{ unfold extract_example.main. rewrite Eparse. cbn. auto. }
  apply Z.eqb_eq in Eparse. subst parse_ret.
  pose proof (extract_run lib path hw) as Hrun.
  destruct (extract_example.run lib (extract_example.main 0 path) hw)
    as [[e hw'] calls].
  split; [exact Hrun|].
  assert (Hall : forall l : list (extract_example.call * extract_example.reply),
            Forall (fun cr => is_qpl (fst cr) = true
                              -> extract_example.status (snd cr)
                                 = details.QPL_STS_OK) l ->
            forall c r, In (c, r) l -> is_qpl c = true ->
                        extract_example.status r = details.QPL_STS_OK).
  { intros l Hl c r Hin. rewrite List.Forall_forall in Hl.
    exact (Hl (c, r) Hin). }
  destruct Hrun.
  - split; [now exists 0|]. left.
    exists [], (extract_example.qpl_get_job_size path), r1.
    repeat split; try assumption. apply Hall. constructor.
  - split; [now exists (extract_example.size_out r1)|]. left.
    exists [(extract_example.qpl_get_job_size path, r1);
            (extract_example.malloc (extract_example.size_out r1), r2)],
           (extract_example.qpl_init_job path), r3.
    repeat split; try assumption. apply Hall.
    repeat constructor; cbn; intros; first [assumption | discriminate].
  - split; [now exists (extract_example.size_out r1)|]. left.
    exists [(extract_example.qpl_get_job_size path, r1);
            (extract_example.malloc (extract_example.size_out r1), r2);
            (extract_example.qpl_init_job path, r3)],
           (extract_example.qpl_execute_job extract_job), r4.
    repeat split; try assumption. apply Hall.
    repeat constructor; cbn; intros; first [assumption | discriminate].
  - split; [now exists (extract_example.size_out r1)|]. left.
    exists [(extract_example.qpl_get_job_size path, r1);
            (extract_example.malloc (extract_example.size_out r1), r2);
            (extract_example.qpl_init_job path, r3);
            (extract_example.qpl_execute_job extract_job, r4)],
           extract_example.qpl_fini_job, r5.
    repeat split; try assumption. apply Hall.
    repeat constructor; cbn; intros; first [assumption | discriminate].
  - split; [now exists (extract_example.size_out r1)|].
    assert (Hsix : forall c r,
              In (c, r)
                [(extract_example.qpl_get_job_size path, r1);
                 (extract_example.malloc (extract_example.size_out r1), r2);
                 (extract_example.qpl_init_job path, r3);
                 (extract_example.qpl_execute_job extract_job, r4);
                 (extract_example.qpl_fini_job, r5);
                 (extract_example.free, r6)] ->
              is_qpl c = true ->
              extract_example.status r = details.QPL_STS_OK).
    { apply Hall.
      repeat constructor; cbn; intros; first [assumption | discriminate]. }
    unfold checked_ending.
    destruct (extract_example.verify _ 0 _ _) as [e'|] eqn:Ev.
    + apply verify_ending in Ev as [-> | ->].
      * split; [reflexivity|exact Hsix].
      * right. split; [reflexivity|]. split; [exact Hsix|reflexivity].
    + split; [reflexivity|]. split; [reflexivity|]. split; [exact Hsix|].
      exists r4. split; [|exact Ev]. cbn. auto 10.
Qed.

(** X23: the example releases the job buffer only on the way to the
    check.  [malloc] is called exactly in the runs in which
    [qpl_get_job_size] came back with [QPL_STS_OK]: once, after it, and
    not at all when it came back with another status.  [free] is called
    exactly in the runs in which [qpl_fini_job] came back with
    [QPL_STS_OK], once.  A reply with another status to the init, execute
    or finalize call ends the program with the buffer allocated and not
    released. *)
Theorem extract_main_frees {HW}
    (lib : extract_example.call -> HW -> extract_example.reply * HW)
    (path : details.qpl_path_t) (hw : HW) :
  let '(e, _, calls) :=
    extract_example.run lib (extract_example.main 0 path) hw in
  length (calls_of is_free calls)
    = length (List.filter (fun cr => is_fini (fst cr) && went_well cr) calls)
  /\ length (calls_of is_malloc calls)
     = length (List.filter (fun cr => is_get_size (fst cr) && went_well cr)
                 calls)
  /\ (length (calls_of is_malloc calls) = 1%nat
      <-> exists r, In (extract_example.qpl_get_job_size path, r) calls
                    /\ extract_example.status r = details.QPL_STS_OK)
  /\ (calls_of is_malloc calls = []
      <-> exists r, calls = [(extract_example.qpl_get_job_size path, r)]
                    /\ extract_example.status r <> details.QPL_STS_OK)
  /\ (length (calls_of is_free calls) = 1%nat
      <-> exists r, In (extract_example.qpl_fini_job, r) calls
                    /\ extract_example.status r = details.QPL_STS_OK)
  /\ (length (calls_of is_free calls) <= length (calls_of is_malloc calls) <= 1)%nat
  /\ (forall c r before,
        calls = before ++ [(c, r)] ->
        extract_example.status r <> details.QPL_STS_OK ->
        is_fini c = true \/ c = extract_example.qpl_init_job path
        \/ c = extract_example.qpl_execute_job extract_job ->
        length (calls_of is_malloc calls) = 1%nat
        /\ calls_of is_free calls = []).
Proof.
  pose proof (extract_run lib path hw) as Hrun.
  destruct (extract_example.run lib (extract_example.main 0 path) hw)
    as [[e hw'] calls].
  destruct Hrun; unfold calls_of; cbn; settle_status; cbn;
    (split; [reflexivity|]); (split; [reflexivity|]).
  - split.
    { split; [discriminate|]. intros (r & Hin & Hok).
      destruct Hin as [Heq|[]]. injection Heq as <-. contradiction. }
    split.
    { split; [|reflexivity]. intros _. now exists r1. }
    split.
    { split; [discriminate|]. intros (r & Hin & Hok).
      destruct Hin as [Heq|[]]. discriminate Heq. }
    split; [lia|].
    intros c r before Hcalls Hfail Hkind.
    destruct before as [|? [|? ?]]; try discriminate Hcalls.
    injection Hcalls as <- <-.
    destruct Hkind as [Hk | [Hk | Hk]]; discriminate Hk.
  - split.
    { split; [|reflexivity]. intros _. exists r1. split; [now left|assumption]. }
    split.
    { split; [discriminate|]. intros (r & Heq & _). discriminate Heq. }
    split.
    { split; [discriminate|]. intros (r & Hin & Hok).
      each_call Hin ltac:(fun H => discriminate H). }
    split; [lia|]. auto.
  - split.
    { split; [|reflexivity]. intros _. exists r1. split; [now left|assumption]. }
    split.
    { split; [discriminate|]. intros (r & Heq & _). discriminate Heq. }
    split.
    { split; [discriminate|]. intros (r & Hin & Hok).
      each_call Hin ltac:(fun H => discriminate H). }
    split; [lia|]. auto.
  - split.
    { split; [|reflexivity]. intros _. exists r1. split; [now left|assumption]. }
    split.
    { split; [discriminate|]. intros (r & Heq & _). discriminate Heq. }
    split.
    { split; [discriminate|]. intros (r & Hin & Hok).
      each_call Hin ltac:(fun H => first [discriminate H
                                         | injection H as <-; contradiction]). }
    split; [lia|]. auto.
  - split.
    { split; [|reflexivity]. intros _. exists r1. split; [now left|assumption]. }
    split.
    { split; [discriminate|]. intros (r & Heq & _). discriminate Heq. }
    split.
    { split; [|reflexivity]. intros _. exists r5.
      split; [cbn; auto 10|assumption]. }
    split; [lia|].
    intros c r before Hcalls Hfail Hkind.
    apply (f_equal (@rev _)) in Hcalls. rewrite rev_app_distr in Hcalls.
    cbn in Hcalls. injection Hcalls as <- <- _.
    destruct Hkind as [Hk | [Hk | Hk]]; discriminate Hk.
Qed.

Example extract_example_succeeds :
  fst (fst (extract_example.run extracting_library
              (extract_example.main 0 details.qpl_path_software) tt))
  = extract_example.Returned 0 ["Extract was performed successfully."%string].
Proof. vm_compute. reflexivity. Qed.
